(** * JWK key registry and key store (lib/jwk/keystore.js)

  A shallow embedding of the registry of key factories and of the
  hierarchical key store, with the properties of both that the
  specification states.

  Conventions of the embedding.
  - A function that returns a promise is followed to the settlement of
    that promise: its outcome says whether the call threw before a
    promise existed, or the promise was rejected, or fulfilled.  One call
    runs to its end before the next begins.
  - The objects [types] and [keysets] are used as maps from names to
    values: the embedding keeps their own properties.  Both are plain
    objects, so a read of a name they do not own finds what
    [Object.prototype] has under that name: [JS.inherited] tells which
    names these are, and each read says what it does with such a member.
    A store whose [keysets] has come to hold such a member in place of a
    bucket is no value of the embedding: the outcome [Spoils] marks the
    call that leaves it so.
  - Objects have an identity where the code depends on it: keys and
    factories carry a reference number, and a filter object passed to
    [get] lives in a store of shared objects. *)

From Stdlib Require Import ZArith NArith List Bool Ascii String Lia.
From stdpp Require Import base gmap strings list fin_maps pretty.

Set Warnings "-register-all".
Local Open Scope string_scope.
Local Open Scope list_scope.

(** ** JavaScript values *)

Module JS.

(** Address of an object that the caller and the callee share. *)
Definition loc := nat.

(** Values that travel as call arguments and as fields of filter objects.
    An object is a reference: two references to one address are the same
    object, and a write through one is seen through the other.  Numbers
    are the integers. *)
Inductive jsval :=
| VUndef
| VNull
| VBool (b : bool)
| VNum (n : Z)
| VStr (s : string)
| VRef (l : loc).

(** Plain data carried by value: key material, parsed JSON text and the
    JSON form of a key.  This code reads such data and never writes to it. *)
Inductive data :=
| DUndef
| DNull
| DBool (b : bool)
| DNum (n : Z)
| DStr (s : string)
| DArr (elems : list data)
| DObj (fields : list (string * data)).

(** What a call throws, or a promise is rejected with: the two errors of
    the runtime met here, an [Error] object with its message, a bare
    string given as the reason of a rejection, and the errors of the
    collaborators. *)
Inductive error :=
| SyntaxError
| TypeError
| Error (msg : string)
| Reason (msg : string)
| Foreign (code : nat).

(** ToBoolean. *)
Definition truthy (v : jsval) : bool :=
  match v with
  | VUndef | VNull => false
  | VBool b => b
  | VNum n => negb (n =? 0)%Z
  | VStr s => negb (s =? "")
  | VRef _ => true
  end.

Definition truthy_data (d : data) : bool :=
  match d with
  | DUndef | DNull => false
  | DBool b => b
  | DNum n => negb (n =? 0)%Z
  | DStr s => negb (s =? "")
  | DArr _ | DObj _ => true
  end.

(** The [typeof] operator. *)
Definition typeof (v : jsval) : string :=
  match v with
  | VUndef => "undefined"
  | VNull | VRef _ => "object"
  | VBool _ => "boolean"
  | VNum _ => "number"
  | VStr _ => "string"
  end.

(** A string, or undefined when absent, as a value. *)
Definition of_opt (o : option string) : jsval :=
  match o with
  | Some s => VStr s
  | None => VUndef
  end.

(** The objects shared with the caller, each a map of its own properties. *)
Abbreviation heap := (gmap loc (gmap string jsval)).

(** [a === b]. *)
Definition strict_eq (a b : jsval) : bool :=
  match a, b with
  | VUndef, VUndef | VNull, VNull => true
  | VBool x, VBool y => eqb x y
  | VNum x, VNum y => (x =? y)%Z
  | VStr x, VStr y => x =? y
  | VRef x, VRef y => (x =? y)%nat
  | _, _ => false
  end.

(** [o.name]: undefined when the property is missing, and on a primitive
    value, none of which carries one of the properties read here. *)
Definition get_prop (H : heap) (v : jsval) (name : string) : jsval :=
  match v with
  | VRef l => default VUndef (default ∅ (H !! l) !! name)
  | _ => VUndef
  end.

(** [o.name = x] in strict mode: a write into the shared object; on a
    primitive value the assignment throws (no result). *)
Definition set_prop (H : heap) (v : jsval) (name : string) (x : jsval)
  : option heap :=
  match v with
  | VRef l => Some (<[l := <[name := x]> (default ∅ (H !! l))]> H)
  | _ => None
  end.

(** A new empty object [{}]. *)
Definition alloc (H : heap) : heap * jsval :=
  let l := fresh (dom H) in (<[l := ∅]> H, VRef l).

(** The methods that every plain object inherits from [Object.prototype].
    Each is a function: a truthy value that is neither a factory nor an
    array, and has none of the members [prepare], [generate], [push],
    [indexOf]. *)
Definition prototype_methods : list string :=
  ["constructor"; "hasOwnProperty"; "isPrototypeOf"; "propertyIsEnumerable";
   "toLocaleString"; "toString"; "valueOf"; "__defineGetter__";
   "__defineSetter__"; "__lookupGetter__"; "__lookupSetter__"].

(** The name [name] is that of an inherited method. *)
Definition inherited (name : string) : bool :=
  existsb (String.eqb name) prototype_methods.

(** The name under which an object reads and sets its prototype. *)
Definition proto : string := "__proto__".

(** The value of the field [name], undefined when there is none. *)
Fixpoint assoc (fields : list (string * data)) (name : string) : data :=
  match fields with
  | [] => DUndef
  | (n, d) :: rest => if n =? name then d else assoc rest name
  end.

(** [d.name] on data; no result when [d] is null or undefined, where the
    read throws a TypeError. *)
Definition data_prop (d : data) (name : string) : option data :=
  match d with
  | DUndef | DNull => None
  | DObj fields => Some (assoc fields name)
  | _ => Some DUndef
  end.

End JS.
Import JS.

(** ** Outcomes of calls *)

(** A call that completes at once: it throws or it returns. *)
Inductive result (A : Type) :=
| Throw (e : error)
| Return (a : A).
Arguments Throw {A} e.
Arguments Return {A} a.

(** A call that hands back a promise: it throws before a promise exists,
    or the promise it returns is rejected, or fulfilled.  The fourth
    outcome is one of [add] and [generate] only: the promise is rejected
    with [e] after the call has written into [keysets], under [name], a
    value that is no bucket.  The store is from then on none that the
    embedding describes, and the store handed back with this outcome is
    the one from before the write. *)
Inductive completion (A : Type) :=
| Throws (e : error)
| Rejects (e : error)
| Resolves (a : A)
| Spoils (name : string) (e : error).
Arguments Throws {A} e.
Arguments Rejects {A} e.
Arguments Resolves {A} a.
Arguments Spoils {A} name e.

(** The outcome as the holder of the promise sees it. *)
Definition settled {A} (c : completion A) : completion A :=
  match c with
  | Spoils _ e => Rejects e
  | c => c
  end.

(** ** Keys *)

(** Modelled from the spec: the Key class (jwk/basekey.js), which is not
    part of this file.  A Key is an opaque object; these are the members the
    store reads: type tag, identifier, usage and algorithm (each a string, or
    absent), the capability query [supports(alg)], the JSON form
    [toJSON(isPrivate)], with the private fields when the flag is truthy, and
    the owning store.  It has no indexed member such as [0]. *)
Record KeyObject := {
  key_kty : option string;
  key_kid : option string;
  key_use : option string;
  key_alg : option string;
  key_supports : jsval -> bool;
  key_toJSON : jsval -> data;
  key_keystore : nat
}.

(** A Key instance: an object identity and its members.  Keys are compared
    by identity. *)
Record Key := { key_ref : nat; key_obj :> KeyObject }.

Definition same_key (a b : Key) : bool := (key_ref a =? key_ref b)%nat.

(** ** The runtime and the collaborators outside this file *)

(** What the code calls and does not define: two operations of the
    runtime, the constructor of keys (jwk/basekey.js) and the helper
    [merge] (util/merge.js).  The properties below hold for any of them. *)
Class Host := {
  (** Configuration object a factory prepares for a key. *)
  Cfg : Type;
  (** [JSON.parse]; no result where it throws a SyntaxError. *)
  JSON_parse : string -> option data;
  (** ToString of a value that is not a string, as a property name. *)
  ToString : data -> string;
  (** The body of [new JWK.BaseKey(kty, keystore, props, cfg)]: the members
      of the new object, or the error its constructor throws. *)
  BaseKey : data -> nat -> data -> Cfg -> error + KeyObject;
  (** [merge(target, a, b)] of util/merge: [target] with the fields of [a],
      then those of [b], merged over it. *)
  merge : data -> data -> data -> data
}.

(** A Key Factory: an object with a type tag and the two asynchronous
    operations [generate(size)] and [prepare(jwk)]. *)
Record Factory `{Host} := {
  fac_ref : nat;
  fac_kty : data;
  fac_generate : data -> completion data;
  fac_prepare : data -> completion Cfg
}.

(** ** JWKRegistry *)

Module Registry.
Section Registry.
Context {host : Host}.

(** The private [types] object of a registry, used as a map from type tag
    to factory. *)
Abbreviation types := (gmap string Factory).

(** The property name [kty] selects. *)
Definition prop_key (kty : data) : string :=
  match kty with
  | DStr s => s
  | _ => ToString kty
  end.

(** The guard shared by [register] and [unregister]:
    [!factory || "string" !== typeof factory.kty || !factory.kty]. *)
Definition invalid (factory : option Factory) : bool :=
  match factory with
  | None => true
  | Some f =>
      match fac_kty f with
      | DStr s => negb (truthy_data (DStr s))
      | _ => true
      end
  end.

(** [register(factory)]; the registry it returns is the one it was called
    on, given here by the state of its [types].  Under the name
    "__proto__" the assignment [types[kty] = factory] makes the factory the
    prototype of [types]: it is then what [types["__proto__"]] reads, and
    is kept here under that name; what else [types] then inherits is told
    by [inherits]. *)
Definition register (t : types) (factory : option Factory) : result types :=
  if invalid factory then Throw (Error "invalid Key factory")
  else
    match factory with
    | Some f =>
        let kty := prop_key (fac_kty f) in
        Return (<[kty := f]> t)
    | None => Throw (Error "invalid Key factory")
    end.

(** [unregister(factory)].  A member that [types] inherits is never the
    factory, so nothing is deleted for it.  The prototype is no own
    property: [delete types["__proto__"]] removes nothing, and a factory
    registered under that name stays. *)
Definition unregister (t : types) (factory : option Factory) : result types :=
  if invalid factory then Throw (Error "invalid Key factory")
  else
    match factory with
    | Some f =>
        let kty := prop_key (fac_kty f) in
        match t !! kty with
        | Some g =>
            if (fac_ref f =? fac_ref g)%nat
            then Return (if kty =? proto then t else delete kty t)
            else Return t
        | None => Return t
        end
    | None => Throw (Error "invalid Key factory")
    end.

(** [get(kty)], that is [types[kty || ""] || undefined], where it returns a
    factory that was registered: the one [types] has under the name.  What
    it returns where there is none is told by [foreign]. *)
Definition get (t : types) (kty : data) : option Factory :=
  t !! (if truthy_data kty then prop_key kty else "").

(** A read [types[name]] of a name that [types] does not own finds an
    inherited member: a method of [Object.prototype]; under "__proto__",
    the prototype; and, when a factory has been made the prototype of
    [types], the three members of that factory.  All of these are truthy. *)
Definition inherits (t : types) (name : string) : bool :=
  inherited name
  || (name =? proto)
  || match t !! proto with
     | Some _ => existsb (String.eqb name) ["kty"; "generate"; "prepare"]
     | None => false
     end.

(** [get(kty)] returns a value that is no registered factory, an inherited
    member of [types], instead of undefined.  Such a value has neither a
    [prepare] nor a [generate] that could be called. *)
Definition foreign (t : types) (kty : data) : bool :=
  let name := if truthy_data kty then prop_key kty else "" in
  match t !! name with
  | Some _ => false
  | None => inherits t name
  end.

(** The type tag of [f] is the non-empty string [tag]. *)
Definition tagged (f : Factory) (tag : string) : Prop :=
  fac_kty f = DStr tag /\ tag <> "".

(** Every factory of the registry is stored under its own type tag. *)
Definition sound (t : types) : Prop :=
  forall name f, t !! name = Some f -> tagged f name.

End Registry.
End Registry.

(** ** Objects whose property order is observed *)

(** The [keysets] object of a store is enumerated with [Object.keys], so the
    order of its properties matters: it is kept as the list of the own
    properties in the order of their creation, each name once. *)
Module Obj.
Section Obj.
Context {V : Type}.

Abbreviation props := (list (string * V)).

(** [o[name]]. *)
Fixpoint lookup (o : props) (name : string) : option V :=
  match o with
  | [] => None
  | (n, v) :: rest => if n =? name then Some v else lookup rest name
  end.

(** [o[name] = v]: an existing property keeps its place, a new one is
    created last. *)
Fixpoint store (o : props) (name : string) (v : V) : props :=
  match o with
  | [] => [(name, v)]
  | (n, w) :: rest =>
      if n =? name then (n, v) :: rest else (n, w) :: store rest name v
  end.

(** [delete o[name]]. *)
Fixpoint remove (o : props) (name : string) : props :=
  match o with
  | [] => []
  | (n, w) :: rest =>
      if n =? name then rest else (n, w) :: remove rest name
  end.

Definition digit (c : ascii) : option N :=
  let n := N_of_ascii c in
  if ((48 <=? n) && (n <=? 57))%N then Some (n - 48)%N else None.

Fixpoint decimal (s : string) (acc : N) : option N :=
  match s with
  | EmptyString => Some acc
  | String c rest =>
      match digit c with
      | Some d => decimal rest (10 * acc + d)%N
      | None => None
      end
  end.

(** The number a property name denotes when it is an array index: the
    canonical decimal form of an integer below 2^32 - 1. *)
Definition array_index (name : string) : option N :=
  match name with
  | EmptyString => None
  | String c rest =>
      if (N_of_ascii c =? 48)%N && negb (rest =? "") then None
      else
        match decimal name 0 with
        | Some n => if (n <? 4294967295)%N then Some n else None
        | None => None
        end
  end.

Definition is_index (name : string) : bool :=
  match array_index name with
  | Some _ => true
  | None => false
  end.

Fixpoint insert_index (i : N) (name : string) (l : list (N * string))
  : list (N * string) :=
  match l with
  | [] => [(i, name)]
  | (j, m) :: rest =>
      if (i <=? j)%N then (i, name) :: l else (j, m) :: insert_index i name rest
  end.

Fixpoint indices (names : list string) : list (N * string) :=
  match names with
  | [] => []
  | name :: rest =>
      match array_index name with
      | Some i => insert_index i name (indices rest)
      | None => indices rest
      end
  end.

(** [Object.keys(o)]: the array indices in ascending numeric order, then
    the other names in the order of their creation. *)
Definition keys (o : props) : list string :=
  let names := map fst o in
  map snd (indices names)
  ++ List.filter (fun name => negb (is_index name)) names.

End Obj.
End Obj.

(** ** JWKStore *)

(** A store at the time of a call: its identity, the [types] of the
    registry it was built with, its own [keysets], and its parent. *)
Inductive JWKStore `{Host} := {
  store_ref : nat;
  registry : gmap string Factory;
  keysets : list (string * list Key);
  parent : option JWKStore
}.

Module KeyStore.
Section KeyStore.
Context {host : Host}.

(** The keys filed under [id]. *)
Definition bucket (s : JWKStore) (id : string) : list Key :=
  default [] (Obj.lookup (keysets s) id).

Definition with_keysets (s : JWKStore) (ks : list (string * list Key))
  : JWKStore :=
  {| store_ref := store_ref s; registry := registry s;
     keysets := ks; parent := parent s |}.

(** The function [matches] inside [all], for the filter object [props]. *)
Definition matches (H : heap) (props : jsval) (key : Key) : bool :=
  let p := get_prop H props in
  if truthy (p "kty") && truthy (of_opt (key_kty key))
     && negb (strict_eq (p "kty") (of_opt (key_kty key)))
  then false
  else if truthy (p "use") && truthy (of_opt (key_use key))
          && negb (strict_eq (p "use") (of_opt (key_use key)))
  then false
  else if truthy (p "alg") then
    if negb (strict_eq (p "alg") (VStr "dir")) && truthy (of_opt (key_alg key))
       && negb (strict_eq (p "alg") (of_opt (key_alg key)))
    then false
    else key_supports key (p "alg")
  else true.

(** The loop of [all] over [Object.keys(keysets)]. *)
Definition own_matches (s : JWKStore) (H : heap) (props : jsval) : list Key :=
  flat_map
    (fun id =>
       if truthy (get_prop H props "kid")
          && negb (strict_eq (get_prop H props "kid") (VStr id))
       then []
       else List.filter (matches H props) (bucket s id))
    (Obj.keys (keysets s)).

(** [all(props, local)]. *)
Fixpoint all (s : JWKStore) (H : heap) (props local : jsval) : list Key :=
  let '(H, props) := if truthy props then (H, props) else alloc H in
  let candidates := own_matches s H props in
  match parent s with
  | Some p =>
      if negb (truthy local) then candidates ++ all p H props VUndef
      else candidates
  | None => candidates
  end.

(** [get(kid, props, local)]: the objects after the call, and the Key or
    null it returns, or the error it throws.  A Key has no member [0]. *)
Fixpoint get (s : JWKStore) (H : heap) (kid props local : jsval)
  : heap * result (option Key) :=
  let '(kid, props, local) :=
    if typeof kid =? "boolean" then (VNull, VNull, kid)
    else if typeof kid =? "object" then (VNull, kid, props)
    else (kid, props, local) in
  let '(H, props) := if truthy props then (H, props) else alloc H in
  match (if truthy kid then set_prop H props "kid" kid else Some H) with
  | None => (H, Throw TypeError)
  | Some H =>
      match all s H props (VBool true), parent s with
      | [], Some p =>
          if negb (truthy local) then
            let '(H, candidates) := get p H props local VUndef in
            match candidates with
            | Throw e => (H, Throw e)
            | Return None => (H, Throw TypeError)
            | Return (Some _) => (H, Return None)
            end
          else (H, Return None)
      | [], None => (H, Return None)
      | key :: _, _ => (H, Return (Some key))
      end
  end.

(** [toJSON(isPrivate)], the method of the store. *)
Definition toJSON (s : JWKStore) (isPrivate : jsval) : data :=
  DObj [("keys",
         DArr (flat_map
                 (fun id => map (fun k : Key => key_toJSON k isPrivate)
                              (bucket s id))
                 (Obj.keys (keysets s))))].

(** [keys.indexOf(jwk)]: position of the first element identical to [jwk]. *)
Fixpoint indexOf (keys : list Key) (jwk : Key) : option nat :=
  match keys with
  | [] => None
  | k :: rest => if same_key k jwk then Some 0 else S <$> indexOf rest jwk
  end.

(** The property name an identifier selects in [keysets[jwk.kid]]: a
    missing identifier is the value undefined, whose name is "undefined". *)
Definition prop_name (id : option string) : string :=
  match id with
  | Some name => name
  | None => "undefined"
  end.

(** A read [keysets[name]] of a name that [keysets] does not own finds an
    inherited member: a method of [Object.prototype], or under "__proto__"
    that object itself.  It is truthy and no array. *)
Definition stray (s : JWKStore) (name : string) : bool :=
  match Obj.lookup (keysets s) name with
  | Some _ => false
  | None => inherited name || (name =? proto)
  end.

(** [remove(jwk)] throws: what [keysets[jwk.kid]] finds is an inherited
    member, and [keys.indexOf] is no function; the TypeError comes before
    anything is written. *)
Definition remove_throws (s : JWKStore) (jwk : option Key) : bool :=
  match jwk with
  | None => false
  | Some jwk => stray s (prop_name (key_kid jwk))
  end.

(** [remove(jwk)]: the store after the call, be it that the call returns
    or that it throws, which [remove_throws] tells; [None] is a missing
    (falsy) argument. *)
Definition remove (s : JWKStore) (jwk : option Key) : JWKStore :=
  match jwk with
  | None => s
  | Some jwk =>
      match Obj.lookup (keysets s) (prop_name (key_kid jwk)) with
      | None => s
      | Some keys =>
          match indexOf keys jwk with
          | None => s
          | Some pos =>
              let keys := delete pos keys in
              if (length keys =? 0)%nat
              then with_keysets s (Obj.remove (keysets s) (prop_name (key_kid jwk)))
              else with_keysets s (Obj.store (keysets s) (prop_name (key_kid jwk)) keys)
          end
      end
  end.

(** What [add] is given: a Key instance (an object that passes [isKey]),
    or any other value, as data. *)
Inductive input :=
| InKey (k : Key)
| InData (d : data).

(** The first lines of [add]: the text is parsed, a Key gives its JSON
    form. *)
Definition normalize (jwk : input) : result data :=
  match jwk with
  | InData (DStr text) =>
      match JSON_parse text with
      | Some d => Return d
      | None => Throw SyntaxError
      end
  | InKey k => Return (key_toJSON k (VBool true))
  | InData d => Return d
  end.

(** The last callback of [add] where it succeeds: the new key is filed
    under its identifier, or under the empty name, in the bucket that
    [keysets] has under that name or in a new one. *)
Definition file (s : JWKStore) (jwk : Key) : JWKStore :=
  let kid := default "" (key_kid jwk) in
  let keys := default [] (Obj.lookup (keysets s) kid) in
  with_keysets s (Obj.store (keysets s) kid (keys ++ [jwk])).

(** [add(jwk)].  [next] is the identity the next new object receives.  The
    promise of the factory is followed to its end within the call.

    Where [registry.get] returns an inherited member, [keytype.prepare] is
    no function and the call throws a TypeError.  In the last callback,
    [keysets[kid] || []] is an inherited member when [kid] names one:
    [keys.push] is then no function and the promise is rejected with a
    TypeError; before that, the assignment [keysets[kid] = ...] has made
    the member an own property of [keysets], unless [kid] is "__proto__",
    where it sets the prototype to what it was. *)
Definition add (s : JWKStore) (next : nat) (jwk : input)
  : JWKStore * nat * completion Key :=
  match normalize jwk with
  | Throw e => (s, next, Throws e)
  | Return jwk =>
      match data_prop jwk "kty" with
      | None => (s, next, Throws TypeError)
      | Some kty =>
          match Registry.get (registry s) kty with
          | None =>
              if Registry.foreign (registry s) kty
              then (s, next, Throws TypeError)
              else (s, next, Rejects (Error "unsupported key type"))
          | Some keytype =>
              match fac_prepare keytype jwk with
              | Throws e => (s, next, Throws e)
              | Rejects e | Spoils _ e => (s, next, Rejects e)
              | Resolves cfg =>
                  match BaseKey kty (store_ref s) jwk cfg with
                  | inl e => (s, next, Rejects e)
                  | inr obj =>
                      let key := {| key_ref := next; key_obj := obj |} in
                      let kid := default "" (key_kid key) in
                      if stray s kid then
                        if kid =? proto then (s, next, Rejects TypeError)
                        else (s, next, Spoils kid TypeError)
                      else (file s key, S next, Resolves key)
                  end
              end
          end
      end
  end.

(** An array seen as an object: its elements under the names "0", "1",
    and so on. *)
Definition indexed (elems : list data) : list (string * data) :=
  imap (fun i d => (pretty i, d)) elems.

(** [props = clone(props || {}); props.kty = kty]: the fields of the copy
    with the type tag set.  On a truthy value that is no object the
    assignment throws a TypeError (no result). *)
Definition with_kty (props kty : data) : option (list (string * data)) :=
  if negb (truthy_data props) then Some (Obj.store [] "kty" kty)
  else
    match props with
    | DObj fields => Some (Obj.store fields "kty" kty)
    | DArr elems => Some (Obj.store (indexed elems) "kty" kty)
    | _ => None
    end.

(** [generate(kty, size, props)].  Where [registry.get] returns an
    inherited member, [keytype.generate] is no function and the call throws
    a TypeError. *)
Definition generate (s : JWKStore) (next : nat) (kty size props : data)
  : JWKStore * nat * completion Key :=
  match Registry.get (registry s) kty with
  | None =>
      if Registry.foreign (registry s) kty
      then (s, next, Throws TypeError)
      else (s, next, Rejects (Error "unsupported key type"))
  | Some keytype =>
      match with_kty props kty with
      | None => (s, next, Throws TypeError)
      | Some props =>
          match fac_generate keytype size with
          | Throws e => (s, next, Throws e)
          | Rejects e | Spoils _ e => (s, next, Rejects e)
          | Resolves jwk =>
              let jwk := merge (DObj props) jwk (DObj [("kty", kty)]) in
              match add s next (InData jwk) with
              | (s, next, Throws e) => (s, next, Rejects e)
              | ended => ended
              end
          end
      end
  end.

(** [new JWKStore(GLOBAL_REGISTRY)], for the [types] of the global
    registry. *)
Definition createKeyStore (global : gmap string Factory) (next : nat)
  : JWKStore * nat :=
  ({| store_ref := next; registry := global; keysets := []; parent := None |},
   S next).

(** The promise that [add(jwk)] hands back is rejected from the start: it
    is the one made by [Promise.reject] where the type has no factory.
    Every other promise of [add] is settled by a callback, later. *)
Definition refused (s : JWKStore) (jwk : input) : bool :=
  match normalize jwk with
  | Throw _ => false
  | Return jwk =>
      match data_prop jwk "kty" with
      | None => false
      | Some kty =>
          match Registry.get (registry s) kty with
          | None => negb (Registry.foreign (registry s) kty)
          | Some _ => false
          end
      end
  end.

(** [keys.map(function(k) { return store.add(k); })]: the calls are made in
    order and stop at the first that throws.  Each promise comes with the
    mark of [refused]. *)
Fixpoint add_each (s : JWKStore) (next : nat) (keys : list data)
  : JWKStore * nat * result (list (bool * completion Key)) :=
  match keys with
  | [] => (s, next, Return [])
  | k :: rest =>
      let early := refused s (InData k) in
      match add s next (InData k) with
      | (s, next, Throws e) => (s, next, Throw e)
      | (s, next, promise) =>
          match add_each s next rest with
          | (s, next, Throw e) => (s, next, Throw e)
          | (s, next, Return promises) =>
              (s, next, Return ((early, promise) :: promises))
          end
      end
  end.

(** The reason of the first promise of the list that is not fulfilled. *)
Fixpoint first_rejection (promises : list (completion Key)) : option error :=
  match promises with
  | [] => None
  | Rejects e :: _ | Throws e :: _ | Spoils _ e :: _ => Some e
  | Resolves _ :: rest => first_rejection rest
  end.

(** [Promise.all(keys)] is rejected with the reason of the promise that is
    rejected first in time.  A promise rejected from the start comes before
    all that a callback rejects; within either kind the order is that of
    the calls, the promises of the factories settling in that order. *)
Definition rejection (promises : list (bool * completion Key)) : option error :=
  match first_rejection (map snd (List.filter fst promises)) with
  | Some e => Some e
  | None => first_rejection (map snd promises)
  end.

(** What [asKeyStore] is given: a store (an object that passes
    [isKeyStore]), or any other value, as data. *)
Inductive source :=
| IsStore (s : JWKStore)
| IsData (d : data).

(** [asKeyStore(ks)]. *)
Definition asKeyStore (global : gmap string Factory) (next : nat) (ks : source)
  : nat * completion JWKStore :=
  match ks with
  | IsStore s => (next, Resolves s)
  | IsData ks =>
      let '(store, next) := createKeyStore global next in
      match (match ks with
             | DStr text =>
                 match JSON_parse text with
                 | Some d => Return d
                 | None => Throw SyntaxError
                 end
             | _ => Return ks
             end) with
      | Throw e => (next, Throws e)
      | Return ks =>
          match (match ks with
                 | DArr keys => Return (Some (DArr keys))
                 | DObj fields =>
                     match Obj.lookup fields "keys" with
                     | Some keys => Return (Some keys)
                     | None => Return None
                     end
                 | _ => Throw TypeError
                 end) with
          | Throw e => (next, Throws e)
          | Return None => (next, Rejects (Reason "invalid keystore"))
          | Return (Some (DArr keys)) =>
              match add_each store next keys with
              | (_, next, Throw e) => (next, Throws e)
              | (store, next, Return promises) =>
                  match rejection promises with
                  | Some e => (next, Rejects e)
                  | None => (next, Resolves store)
                  end
              end
          | Return (Some _) => (next, Throws TypeError)
          end
      end
  end.

(** [asKey(key)].  The store it makes is held by nobody else: of a call
    of [add] that spoils it, the rejection is all that is left. *)
Definition asKey (global : gmap string Factory) (next : nat) (key : input)
  : nat * completion Key :=
  match key with
  | InKey k => (next, Resolves k)
  | InData _ =>
      let '(ks, next) := createKeyStore global next in
      let '(_, next, key) := add ks next key in
      (next, settled key)
  end.

(** *** Notions the properties below are stated with *)

(** The keys of the store itself, bucket after bucket as [Object.keys]
    enumerates them. *)
Definition own_keys (s : JWKStore) : list Key :=
  flat_map (bucket s) (Obj.keys (keysets s)).

(** A clause of [matches] fails: the filter and the key both have the
    property [name], with different values. *)
Definition differs (H : heap) (props : jsval) (name : string)
    (own : option string) : bool :=
  truthy (get_prop H props name) && truthy (of_opt own)
  && negb (strict_eq (get_prop H props name) (of_opt own)).

(** The key [key], its algorithm field replaced. *)
Definition with_alg (key : Key) (a : option string) : Key :=
  {| key_ref := key_ref key;
     key_obj := {| key_kty := key_kty key; key_kid := key_kid key;
                   key_use := key_use key; key_alg := a;
                   key_supports := key_supports key;
                   key_toJSON := key_toJSON key;
                   key_keystore := key_keystore key |} |}.

(** The keys of the store in the order of its properties, as they were
    created. *)
Definition stored (s : JWKStore) : list Key := concat (map snd (keysets s)).

(** The keys of the store, then those of its parent, and so on up. *)
Fixpoint chain_keys (s : JWKStore) : list Key :=
  own_keys s
  ++ match parent s with
     | Some p => chain_keys p
     | None => []
     end.

(** The state [keysets] is kept in: no identifier twice, no empty bucket,
    and each key in the bucket of its identifier, or of the empty name when
    it has none. *)
Definition well_filed (s : JWKStore) : Prop :=
  NoDup (map fst (keysets s))
  /\ forall id keys, In (id, keys) (keysets s) ->
       keys <> [] /\ forall k, In k keys -> default "" (key_kid k) = id.

(** Every key of the store was created before [next]. *)
Definition older (s : JWKStore) (next : nat) : Prop :=
  forall k, In k (stored s) -> (key_ref k < next)%nat.

(** No two keys of the store are the same object. *)
Definition distinct (s : JWKStore) : Prop := NoDup (map key_ref (stored s)).

(** The keys that a list of settled promises was fulfilled with. *)
Definition fulfilled (promises : list (bool * completion Key)) : list Key :=
  flat_map (fun c => match snd c with Resolves k => [k] | _ => [] end) promises.

(** The store [s] under another parent, or under none. *)
Definition with_parent (s : JWKStore) (p : option JWKStore) : JWKStore :=
  {| store_ref := store_ref s; registry := registry s;
     keysets := keysets s; parent := p |}.

End KeyStore.
End KeyStore.

(** ** The tests [isKeyStore] and [isKey] *)

(** Both tests look at what kind of value they are given and at the kinds
    of some of its members.  A value is seen here as far as [typeof] and
    member access show it. *)
Module Probe.

Inductive shape :=
| PUndef
| PNull
| PBool (b : bool)
| PNum (n : Z)
| PStr (s : string)
| PFun
| PObj (members : list (string * shape)).

Definition truthy (v : shape) : bool :=
  match v with
  | PUndef | PNull => false
  | PBool b => b
  | PNum n => negb (n =? 0)%Z
  | PStr s => negb (s =? "")
  | PFun | PObj _ => true
  end.

Definition typeof (v : shape) : string :=
  match v with
  | PUndef => "undefined"
  | PNull | PObj _ => "object"
  | PBool _ => "boolean"
  | PNum _ => "number"
  | PStr _ => "string"
  | PFun => "function"
  end.

Fixpoint find (members : list (string * shape)) (name : string) : shape :=
  match members with
  | [] => PUndef
  | (n, v) :: rest => if n =? name then v else find rest name
  end.

(** [obj.name], read where [obj] is known to be an object. *)
Definition member (obj : shape) (name : string) : shape :=
  match obj with
  | PObj members => find members name
  | _ => PUndef
  end.

Definition isKeyStore (obj : shape) : bool :=
  if negb (truthy obj) then false
  else if negb (typeof obj =? "object") then false
  else if negb (typeof (member obj "get") =? "function")
          || negb (typeof (member obj "all") =? "function")
          || negb (typeof (member obj "generate") =? "function")
          || negb (typeof (member obj "add") =? "function")
          || negb (typeof (member obj "remove") =? "function")
  then false
  else true.

Definition isKey (obj : shape) : bool :=
  if negb (truthy obj) then false
  else if negb (typeof obj =? "object") then false
  else if negb (isKeyStore (member obj "keystore")) then false
  else if negb (typeof (member obj "kty") =? "string")
          || negb (typeof (member obj "length") =? "number")
          || negb (typeof (member obj "algorithms") =? "function")
          || negb (typeof (member obj "supports") =? "function")
          || negb (typeof (member obj "encrypt") =? "function")
          || negb (typeof (member obj "decrypt") =? "function")
          || negb (typeof (member obj "wrap") =? "function")
          || negb (typeof (member obj "unwrap") =? "function")
          || negb (typeof (member obj "sign") =? "function")
          || negb (typeof (member obj "verify") =? "function")
  then false
  else true.

(** The five methods of a store, and the other members of a key. *)
Definition store_methods : list string :=
  ["get"; "all"; "generate"; "add"; "remove"].

Definition key_methods : list string :=
  ["algorithms"; "supports"; "encrypt"; "decrypt"; "wrap"; "unwrap"; "sign";
   "verify"].

End Probe.

(** ** A host and a few objects to run the operations on *)

Module Fixture.

(** What the sample factories prepare: the names of the private fields of a
    key and the algorithms it supports. *)
Record config := { private : list string; algorithms : list string }.

Definition member (name : string) (names : list string) : bool :=
  existsb (String.eqb name) names.

Definition text_of (d : data) : option string :=
  match d with
  | DStr s => Some s
  | _ => None
  end.

(** A key made of its properties: [toJSON] gives them back, without the
    private ones unless asked for them; [supports] looks the algorithm up. *)
Definition base_key (kty : data) (ks : nat) (props : data) (cfg : config)
  : error + KeyObject :=
  match props with
  | DObj fields =>
      inr {| key_kty := text_of kty;
             key_kid := text_of (assoc fields "kid");
             key_use := text_of (assoc fields "use");
             key_alg := text_of (assoc fields "alg");
             key_supports := fun a =>
               match a with
               | VStr name => member name (algorithms cfg)
               | _ => false
               end;
             key_toJSON := fun isPrivate =>
               DObj (List.filter
                       (fun f => truthy isPrivate || negb (member (fst f) (private cfg)))
                       fields);
             key_keystore := ks |}
  | _ => inl (Error "props cannot be null")
  end.

(** Fields of the later objects written over those of the first. *)
Definition assign (target source : data) : data :=
  match target, source with
  | DObj t, DObj s => DObj (fold_left (fun o f => Obj.store o (fst f) (snd f)) s t)
  | _, _ => target
  end.

(** The sample host.  Its parser knows three texts and refuses any other;
    its keys are made by [base_key]. *)
#[export] Instance host : Host := {|
  Cfg := config;
  JSON_parse := fun text =>
    if text =? "[]" then Some (DArr [])
    else if text =? "{}" then Some (DObj [])
    else if text =? "null" then Some DNull
    else None;
  ToString := fun d =>
    match d with
    | DUndef => "undefined"
    | DNull => "null"
    | DBool true => "true"
    | DBool false => "false"
    | DObj _ => "[object Object]"
    | _ => ""
    end;
  BaseKey := base_key;
  merge := fun target a b => assign (assign target a) b
|}.

(** A factory of symmetric keys and one of RSA keys. *)
Definition oct : Factory := {|
  fac_ref := 1;
  fac_kty := DStr "oct";
  fac_generate := fun _ => Resolves (DObj [("kty", DStr "oct"); ("k", DStr "c2VjcmV0")]);
  fac_prepare := fun jwk =>
    match assoc (match jwk with DObj f => f | _ => [] end) "k" with
    | DStr _ => Resolves {| private := ["k"]; algorithms := ["dir"; "HS256"] |}
    | _ => Rejects (Error "missing key value")
    end
|}.

Definition rsa : Factory := {|
  fac_ref := 2;
  fac_kty := DStr "RSA";
  fac_generate := fun _ => Rejects (Error "not enough entropy");
  fac_prepare := fun _ => Resolves {| private := ["d"]; algorithms := ["RS256"] |}
|}.

(** A second factory of symmetric keys. *)
Definition oct' : Factory := {|
  fac_ref := 3;
  fac_kty := DStr "oct";
  fac_generate := fun _ => Rejects (Error "unavailable");
  fac_prepare := fun _ => Rejects (Error "unavailable")
|}.

(** A factory without a type tag. *)
Definition untagged : Factory := {|
  fac_ref := 4;
  fac_kty := DUndef;
  fac_generate := fun _ => Rejects (Error "unavailable");
  fac_prepare := fun _ => Rejects (Error "unavailable")
|}.

Definition global : gmap string Factory := {[ "oct" := oct; "RSA" := rsa ]}.

Definition new_key (ref ks : nat) (fields : list (string * data))
    (cfg : config) : Key :=
  {| key_ref := ref;
     key_obj := match base_key (assoc fields "kty") ks (DObj fields) cfg with
                | inr obj => obj
                | inl _ =>
                    {| key_kty := None; key_kid := None; key_use := None;
                       key_alg := None; key_supports := fun _ => false;
                       key_toJSON := fun _ => DUndef; key_keystore := ks |}
                end |}.

(** A symmetric key with an identifier, one without, and an RSA key. *)
Definition key_a : Key :=
  new_key 10 0 [("kty", DStr "oct"); ("kid", DStr "a"); ("k", DStr "c2VjcmV0")]
    {| private := ["k"]; algorithms := ["dir"; "HS256"] |}.

Definition key_anon : Key :=
  new_key 11 0 [("kty", DStr "oct"); ("k", DStr "c2VjcmV0")]
    {| private := ["k"]; algorithms := ["dir"; "HS256"] |}.

Definition key_rsa : Key :=
  new_key 12 0 [("kty", DStr "RSA"); ("kid", DStr "r"); ("n", DStr "AQAB");
                ("alg", DStr "RS256")]
    {| private := ["d"]; algorithms := ["RS256"] |}.

(** The key that [add] builds in the store [blank] below from [key_a]. *)
Definition copy_a : Key :=
  new_key 20 3 [("kty", DStr "oct"); ("kid", DStr "a"); ("k", DStr "c2VjcmV0")]
    {| private := ["k"]; algorithms := ["dir"; "HS256"] |}.

(** The key that [add] builds in the store [blank] from [anonymous]. *)
Definition fresh_anon : Key :=
  new_key 20 3 [("kty", DStr "oct"); ("k", DStr "c2VjcmV0")]
    {| private := ["k"]; algorithms := ["dir"; "HS256"] |}.

(** A store without a parent that holds [key_a] and [key_rsa], an empty
    store whose parent it is, and an empty store above that one. *)
Definition root : JWKStore :=
  {| store_ref := 0; registry := global;
     keysets := [("a", [key_a]); ("r", [key_rsa])]; parent := None |}.

Definition child : JWKStore :=
  {| store_ref := 1; registry := global; keysets := []; parent := Some root |}.

Definition grandchild : JWKStore :=
  {| store_ref := 2; registry := global; keysets := []; parent := Some child |}.

(** A store that holds [key_anon] and has [root] for parent. *)
Definition branch : JWKStore :=
  {| store_ref := 4; registry := global;
     keysets := [("", [key_anon])]; parent := Some root |}.

(** The data of a symmetric key without an identifier. *)
Definition anonymous : data :=
  DObj [("kty", DStr "oct"); ("k", DStr "c2VjcmV0")].

Definition blank : JWKStore :=
  {| store_ref := 3; registry := global; keysets := []; parent := None |}.

(** The key that a second [add] of the same data builds in [blank]. *)
Definition twin_a : Key :=
  new_key 21 3 [("kty", DStr "oct"); ("kid", DStr "a"); ("k", DStr "c2VjcmV0")]
    {| private := ["k"]; algorithms := ["dir"; "HS256"] |}.

(** A store and a key as the two tests see them. *)
Definition seen_store : Probe.shape :=
  Probe.PObj (map (fun m => (m, Probe.PFun)) Probe.store_methods).

Definition seen_key : Probe.shape :=
  Probe.PObj ([("keystore", seen_store); ("kty", Probe.PStr "oct");
               ("length", Probe.PNum 256)]
              ++ map (fun m => (m, Probe.PFun)) Probe.key_methods).

(** The data of a symmetric key with the identifier "a". *)
Definition named : data :=
  DObj [("kty", DStr "oct"); ("kid", DStr "a"); ("k", DStr "c2VjcmV0")].

(** The store [asKeyStore] makes of the array of [anonymous] and [named]
    when 0 is the next free identity, and its two keys. *)
Definition made_1 : Key :=
  new_key 1 0 [("kty", DStr "oct"); ("k", DStr "c2VjcmV0")]
    {| private := ["k"]; algorithms := ["dir"; "HS256"] |}.

Definition made_2 : Key :=
  new_key 2 0 [("kty", DStr "oct"); ("kid", DStr "a"); ("k", DStr "c2VjcmV0")]
    {| private := ["k"]; algorithms := ["dir"; "HS256"] |}.

Definition made : JWKStore :=
  {| store_ref := 0; registry := global;
     keysets := [("", [made_1]); ("a", [made_2])]; parent := None |}.

(** The filter [{alg: "dir"}] at address 0 and [{use: "sig"}] at address 1. *)
Definition objects : heap :=
  {[ 0 := {[ "alg" := VStr "dir" ]}; 1 := {[ "use" := VStr "sig" ]} ]}.

(** The filter [{kid: "a"}] at address 0 and [{note: "x"}] at address 1. *)
Definition filters : heap :=
  {[ 0 := {[ "kid" := VStr "a" ]}; 1 := {[ "note" := VStr "x" ]} ]}.

(** The data of a symmetric key whose identifier is the name of a method
    of [Object.prototype], and the key a factory makes of it in [blank]. *)
Definition odd : data :=
  DObj [("kty", DStr "oct"); ("kid", DStr "constructor");
        ("k", DStr "c2VjcmV0")].

Definition key_odd : Key :=
  new_key 20 3 [("kty", DStr "oct"); ("kid", DStr "constructor");
                ("k", DStr "c2VjcmV0")]
    {| private := ["k"]; algorithms := ["dir"; "HS256"] |}.

(** A store whose bucket "a" holds four entries, [key_a] at the second and
    at the fourth place. *)
Definition shelf : JWKStore :=
  {| store_ref := 5; registry := global;
     keysets := [("a", [copy_a; key_a; twin_a; key_a]); ("r", [key_rsa])];
     parent := None |}.

(** A store with two keys under "a", whose parent [root] has another key
    under that identifier. *)
Definition pair : JWKStore :=
  {| store_ref := 6; registry := global;
     keysets := [("a", [copy_a; twin_a])]; parent := Some root |}.

(** A factory whose type tag is "__proto__". *)
Definition proto_factory : Factory := {|
  fac_ref := 5;
  fac_kty := DStr "__proto__";
  fac_generate := fun _ => Rejects (Error "unavailable");
  fac_prepare := fun _ => Rejects (Error "unavailable")
|}.

End Fixture.

(** ** Properties of the registry *)

Section RegistryProperties.
Context {host : Host}.
Implicit Types (t : gmap string Factory) (f g : Factory).

Lemma invalid_tagged f tag :
  Registry.tagged f tag -> Registry.invalid (Some f) = false.
Proof.
  intros [Hk Hne]. unfold Registry.invalid. rewrite Hk. simpl.
  destruct (String.eqb_spec tag ""); [contradiction | reflexivity].
Qed.

Lemma invalid_untagged f :
  (forall tag, ~ Registry.tagged f tag) -> Registry.invalid (Some f) = true.
Proof.
  intros Hno. unfold Registry.invalid.
  destruct (fac_kty f) eqn:Hk; try reflexivity.
  simpl. destruct (String.eqb_spec s ""); [reflexivity |].
  exfalso. apply (Hno s). split; assumption.
Qed.

Lemma register_tagged t f tag :
  Registry.tagged f tag -> Registry.register t (Some f) = Return (<[tag := f]> t).
Proof.
  intros Ht. unfold Registry.register.
  rewrite (invalid_tagged f tag Ht).
  destruct Ht as [-> _]. reflexivity.
Qed.

Lemma get_tag t tag : tag <> "" -> Registry.get t (DStr tag) = t !! tag.
Proof.
  intros Hne. unfold Registry.get. simpl.
  destruct (String.eqb_spec tag ""); [contradiction | reflexivity].
Qed.

(** C7: [register(factory)] throws exactly when the factory is missing or
    its type tag is not a non-empty string.  Otherwise it returns the
    registry with the factory stored under its tag, where [get] finds it,
    and a second factory registered under the same tag takes its place. *)
Theorem register_stores_or_throws t factory :
  ((exists e, Registry.register t factory = Throw e) <->
   (factory = None \/
    exists f, factory = Some f /\ forall tag, ~ Registry.tagged f tag))
  /\ (forall f tag,
        factory = Some f -> Registry.tagged f tag ->
        Registry.register t factory = Return (<[tag := f]> t)
        /\ Registry.get (<[tag := f]> t) (DStr tag) = Some f
        /\ forall g, Registry.tagged g tag ->
             Registry.register (<[tag := f]> t) (Some g)
             = Return (<[tag := g]> t)
             /\ Registry.get (<[tag := g]> t) (DStr tag) = Some g).
Proof.
  split.
  - split.
    + intros [e He]. destruct factory as [f|]; [right | left; reflexivity].
      exists f. split; [reflexivity |]. intros tag Ht.
      rewrite (register_tagged t f tag Ht) in He. discriminate.
    + intros [-> | [f [-> Hno]]].
      * eexists. reflexivity.
      * unfold Registry.register. rewrite (invalid_untagged f Hno).
        eexists. reflexivity.
  - intros f tag -> Ht. split; [apply register_tagged; assumption |].
    pose proof Ht as [_ Hne]. split.
    + rewrite get_tag by assumption. apply lookup_insert_eq.
    + intros g Hg. split.
      * rewrite (register_tagged _ g tag Hg). f_equal. apply insert_insert_eq.
      * rewrite get_tag by assumption. apply lookup_insert_eq.
Qed.

End RegistryProperties.

(** ** The order of [Object.keys] *)

Section OrderProperties.
Context {V : Type}.
Implicit Types (o : list (string * V)).

Lemma indices_none (names : list string) :
  (forall name, In name names -> Obj.is_index name = false) ->
  Obj.indices names = [].
Proof.
  induction names as [|name names IH]; intros Hno; [reflexivity |].
  simpl. pose proof (Hno name (or_introl eq_refl)) as Hn.
  unfold Obj.is_index in Hn. destruct (Obj.array_index name); [discriminate |].
  apply IH. intros other Hin. apply Hno. right. assumption.
Qed.

(** Where no name is an array index, [Object.keys] gives the names in the
    order in which the properties were created. *)
Lemma keys_creation_order o :
  (forall name, In name (map fst o) -> Obj.is_index name = false) ->
  Obj.keys o = map fst o.
Proof.
  intros Hno. unfold Obj.keys. rewrite indices_none by assumption. simpl.
  induction (map fst o) as [|name names IH]; [reflexivity |].
  simpl. rewrite (Hno name (or_introl eq_refl)). simpl. f_equal.
  apply IH. intros other Hin. apply Hno. right. assumption.
Qed.

End OrderProperties.

(** ** Properties of the store: queries *)

Section QueryProperties.
Context {host : Host}.
Implicit Types (s p : JWKStore) (H : heap) (key k : Key).

(** Stores are nested through their parent; induction along the chain. *)
Lemma store_chain_ind (P : JWKStore -> Prop) :
  (forall s, parent s = None -> P s) ->
  (forall s p, parent s = Some p -> P p -> P s) ->
  forall s, P s.
Proof.
  intros Hroot Hstep. fix IH 1. intros s.
  destruct s as [r reg ks [p|]] eqn:Hs.
  - apply (Hstep _ p); [reflexivity | apply IH].
  - apply Hroot. reflexivity.
Qed.

Lemma all_unfold s H props local :
  KeyStore.all s H props local =
  let '(H, props) := if truthy props then (H, props) else alloc H in
  let candidates := KeyStore.own_matches s H props in
  match parent s with
  | Some p =>
      if negb (truthy local)
      then candidates ++ KeyStore.all p H props VUndef
      else candidates
  | None => candidates
  end.
Proof. destruct s; reflexivity. Qed.

Lemma get_unfold s H kid props local :
  KeyStore.get s H kid props local =
  let '(kid, props, local) :=
    if typeof kid =? "boolean" then (VNull, VNull, kid)
    else if typeof kid =? "object" then (VNull, kid, props)
    else (kid, props, local) in
  let '(H, props) := if truthy props then (H, props) else alloc H in
  match (if truthy kid then set_prop H props "kid" kid else Some H) with
  | None => (H, Throw TypeError)
  | Some H =>
      match KeyStore.all s H props (VBool true), parent s with
      | [], Some p =>
          if negb (truthy local) then
            let '(H, candidates) := KeyStore.get p H props local VUndef in
            match candidates with
            | Throw e => (H, Throw e)
            | Return None => (H, Throw TypeError)
            | Return (Some _) => (H, Return None)
            end
          else (H, Return None)
      | [], None => (H, Return None)
      | key :: _, _ => (H, Return (Some key))
      end
  end.
Proof. destruct s; reflexivity. Qed.

(** An absent filter is the new empty object. *)
Lemma all_default s H props local :
  truthy props = false ->
  KeyStore.all s H props local
  = KeyStore.all s (fst (alloc H)) (snd (alloc H)) local.
Proof.
  intros Hf. rewrite (all_unfold s H props), (all_unfold s (fst (alloc H))).
  rewrite Hf. reflexivity.
Qed.

(** A local search is the loop over the store's own buckets. *)
Lemma all_local s H props :
  truthy props = true ->
  KeyStore.all s H props (VBool true) = KeyStore.own_matches s H props.
Proof.
  intros Ht. rewrite all_unfold, Ht. simpl. destruct (parent s); reflexivity.
Qed.

Lemma alloc_empty H name : get_prop (fst (alloc H)) (snd (alloc H)) name = VUndef.
Proof.
  unfold alloc, get_prop. simpl. rewrite lookup_insert_eq. simpl.
  rewrite lookup_empty. reflexivity.
Qed.

Lemma own_matches_sub s H props k :
  In k (KeyStore.own_matches s H props) -> In k (KeyStore.own_keys s).
Proof.
  unfold KeyStore.own_matches, KeyStore.own_keys.
  rewrite !in_flat_map. intros [id [Hid Hk]]. exists id. split; [assumption |].
  destruct (_ && _) in Hk; [destruct Hk |].
  apply filter_In in Hk. tauto.
Qed.

Lemma matches_no_filter H props k :
  (forall name, get_prop H props name = VUndef) ->
  KeyStore.matches H props k = true.
Proof. intros He. unfold KeyStore.matches. rewrite !He. reflexivity. Qed.

Lemma filter_all {A} (f : A -> bool) (l : list A) :
  (forall x, f x = true) -> List.filter f l = l.
Proof.
  intros Hf. induction l as [|x l IH]; [reflexivity |].
  simpl. rewrite Hf, IH. reflexivity.
Qed.

Lemma own_matches_no_filter s H props :
  (forall name, get_prop H props name = VUndef) ->
  KeyStore.own_matches s H props = KeyStore.own_keys s.
Proof.
  intros He. unfold KeyStore.own_matches, KeyStore.own_keys.
  apply flat_map_ext. intros id. rewrite He. simpl.
  apply filter_all. intros k. apply matches_no_filter. assumption.
Qed.

(** C8: in a store with a parent, a search that is not local gives the
    store's own matches, which are the matching keys of its buckets in
    the order of [Object.keys], followed by the result of the parent's
    search, which is never local; so it contains every local match, and
    what it holds beyond them comes from the parent. *)
Theorem all_is_local_then_parent s p H props local :
  parent s = Some p ->
  truthy local = false ->
  KeyStore.all s H props local
  = KeyStore.all s H props (VBool true) ++ KeyStore.all p H props VUndef
  /\ KeyStore.all s H props (VBool true)
     = (let '(H, props) := if truthy props then (H, props) else alloc H in
        flat_map
          (fun id =>
             if truthy (get_prop H props "kid")
                && negb (strict_eq (get_prop H props "kid") (VStr id))
             then []
             else List.filter (KeyStore.matches H props) (KeyStore.bucket s id))
          (Obj.keys (keysets s)))
  /\ (forall k, In k (KeyStore.all s H props (VBool true)) ->
                In k (KeyStore.all s H props local))
  /\ (forall k, In k (KeyStore.all s H props local) ->
                ~ In k (KeyStore.all s H props (VBool true)) ->
                In k (KeyStore.all p H props VUndef)).
Proof.
  intros Hp Hl.
  assert (Happ : KeyStore.all s H props local
                 = KeyStore.all s H props (VBool true)
                   ++ KeyStore.all p H props VUndef).
  { rewrite (all_unfold s H props local), (all_unfold s H props (VBool true)).
    rewrite Hp, Hl. simpl.
    destruct (truthy props) eqn:Ht; [reflexivity |].
    rewrite (all_default p H props VUndef Ht).
    destruct (alloc H). reflexivity. }
  split; [exact Happ |]. split.
  - rewrite all_unfold, Hp. simpl.
    destruct (if truthy props then (H, props) else alloc H). reflexivity.
  - rewrite Happ. split.
    + intros k Hk. apply in_or_app. left. assumption.
    + intros k Hk Hn. apply in_app_or in Hk. tauto.
Qed.

Lemma map_over_flat_map {A B C} (f : B -> C) (g : A -> list B) (l : list A) :
  map f (flat_map g l) = flat_map (fun x => map f (g x)) l.
Proof.
  induction l as [|x l IH]; [reflexivity |].
  simpl. rewrite map_app, IH. reflexivity.
Qed.

Lemma toJSON_keys s isPrivate :
  KeyStore.toJSON s isPrivate
  = DObj [("keys",
           DArr (map (fun k : Key => key_toJSON k isPrivate)
                   (KeyStore.own_keys s)))].
Proof.
  unfold KeyStore.toJSON, KeyStore.own_keys.
  rewrite map_over_flat_map. reflexivity.
Qed.

(** A call of [get] with a filter object in the first place leaves the
    shared objects as they are. *)
Lemma get_filter_frame s : forall H l x y,
  fst (KeyStore.get s H (VRef l) x y) = H.
Proof.
  induction s as [s Hroot | s p Hp IH] using store_chain_ind;
    intros H l x y; rewrite get_unfold; simpl.
  - rewrite Hroot. destruct (KeyStore.all s H (VRef l) (VBool true)); reflexivity.
  - rewrite Hp. destruct (KeyStore.all s H (VRef l) (VBool true)); [| reflexivity].
    destruct (negb (truthy x)); [| reflexivity].
    specialize (IH H l x VUndef).
    destruct (KeyStore.get p H (VRef l) x VUndef) as [H' [e | [k |]]];
      simpl in IH; subst; reflexivity.
Qed.

(** C10: [get(kid, props, local)] with a non-empty string [kid] and a
    filter object [props] writes [kid] into the caller's object: after the
    call, however it ends, the object at the address of [props] has the
    property [kid] with that value, and nothing else has changed. *)
Theorem get_writes_kid_into_filter s H kid l local :
  kid <> "" ->
  fst (KeyStore.get s H (VStr kid) (VRef l) local)
  = <[l := <["kid" := VStr kid]> (default ∅ (H !! l))]> H
  /\ get_prop (fst (KeyStore.get s H (VStr kid) (VRef l) local)) (VRef l) "kid"
     = VStr kid.
Proof.
  intros Hne.
  assert (Hheap : fst (KeyStore.get s H (VStr kid) (VRef l) local)
                  = <[l := <["kid" := VStr kid]> (default ∅ (H !! l))]> H).
  { rewrite get_unfold. simpl.
    destruct (String.eqb_spec kid ""); [contradiction |]. simpl.
    set (H1 := <[l := _]> H).
    destruct (KeyStore.all s H1 (VRef l) (VBool true)); [| destruct (parent s); reflexivity].
    destruct (parent s) as [p|]; [| reflexivity].
    destruct (negb (truthy local)); [| reflexivity].
    pose proof (get_filter_frame p H1 l local VUndef) as Hf.
    destruct (KeyStore.get p H1 (VRef l) local VUndef) as [H' [e | [k |]]];
      simpl in Hf; subst; reflexivity. }
  split; [exact Hheap |].
  rewrite Hheap. unfold get_prop. rewrite lookup_insert_eq. simpl.
  rewrite lookup_insert_eq. reflexivity.
Qed.

(** Whatever key [get] returns is one of the store's own keys: a key found
    by the parent is never handed on. *)
Lemma get_returns_own_key s H kid props local H' k :
  KeyStore.get s H kid props local = (H', Return (Some k)) ->
  In k (KeyStore.own_keys s).
Proof.
  rewrite get_unfold.
  destruct (if typeof kid =? "boolean" then _ else _) as [[kid1 props1] local1].
  destruct (if truthy props1 then _ else _) as [H1 props2] eqn:Hd.
  assert (Ht : truthy props2 = true).
  { destruct (truthy props1) eqn:Hp; inversion Hd; subst; [assumption | reflexivity]. }
  destruct (if truthy kid1 then _ else _) as [H2|]; [| discriminate].
  rewrite (all_local s H2 props2 Ht).
  destruct (KeyStore.own_matches s H2 props2) as [|key rest] eqn:Ho.
  - destruct (parent s) as [p|]; [| discriminate].
    destruct (negb (truthy local1)); [| discriminate].
    destruct (KeyStore.get p H2 props2 local1 VUndef) as [H3 [e | [k' |]]];
      discriminate.
  - intros Hr. assert (key = k) as <-.
    { destruct (parent s); congruence. }
    apply (own_matches_sub s H2 props2). rewrite Ho. left. reflexivity.
Qed.

(** With the filter [alg: "dir"], [matches] accepts a key when the clauses
    on the type tag and on the usage pass and the key supports "dir"; the
    algorithm field of the key is not looked at. *)
Lemma matches_dir H props key :
  get_prop H props "alg" = VStr "dir" ->
  KeyStore.matches H props key
  = negb (KeyStore.differs H props "kty" (key_kty key))
    && negb (KeyStore.differs H props "use" (key_use key))
    && key_supports key (VStr "dir").
Proof.
  intros Ha. unfold KeyStore.matches, KeyStore.differs. rewrite Ha. simpl.
  destruct (_ && _ && _); [reflexivity |].
  destruct (_ && _ && _); reflexivity.
Qed.

(** C2, as the code has it: for a filter whose [alg] is "dir", [matches]
    accepts a key exactly when the type tag and usage clauses pass and the
    key reports that it supports "dir"; the key's own algorithm field is
    not compared, so replacing it changes nothing. *)
Theorem matches_dir_needs_support H props key :
  get_prop H props "alg" = VStr "dir" ->
  KeyStore.matches H props key
  = negb (KeyStore.differs H props "kty" (key_kty key))
    && negb (KeyStore.differs H props "use" (key_use key))
    && key_supports key (VStr "dir")
  /\ forall a, KeyStore.matches H props (KeyStore.with_alg key a)
               = KeyStore.matches H props key.
Proof.
  intros Ha. split; [apply matches_dir; assumption |].
  intros a. rewrite !matches_dir by assumption. reflexivity.
Qed.

End QueryProperties.

(** ** Properties of the store: changes *)

Section ChangeProperties.
Context {host : Host}.
Implicit Types (s : JWKStore) (key k : Key) (next : nat).

Lemma lookup_store {V} (o : list (string * V)) name v other :
  Obj.lookup (Obj.store o name v) other
  = if name =? other then Some v else Obj.lookup o other.
Proof.
  induction o as [|[n w] o IH]; simpl.
  - destruct (name =? other); reflexivity.
  - destruct (String.eqb_spec n name) as [-> | Hn]; simpl.
    + destruct (name =? other); reflexivity.
    + rewrite IH. destruct (String.eqb_spec n other) as [-> | Ho]; [| reflexivity].
      destruct (String.eqb_spec name other); [congruence | reflexivity].
Qed.

(** Filing a key appends it to the bucket of its identifier, the bucket of
    the empty name when it has none, and touches no other bucket. *)
Lemma bucket_file s key id :
  KeyStore.bucket (KeyStore.file s key) id
  = if default "" (key_kid key) =? id
    then KeyStore.bucket s id ++ [key]
    else KeyStore.bucket s id.
Proof.
  unfold KeyStore.file, KeyStore.bucket at 1. simpl. rewrite lookup_store.
  destruct (String.eqb_spec (default "" (key_kid key)) id) as [-> |];
    reflexivity.
Qed.

(** How a call of [add] ends: with a new key, of a new identity, filed in
    the store, or with the store handed back as it was given. *)
Lemma add_outcome s next jwk s' next' c :
  KeyStore.add s next jwk = (s', next', c) ->
  match c with
  | Resolves key => s' = KeyStore.file s key /\ key_ref key = next
  | _ => s' = s
  end.
Proof.
  unfold KeyStore.add.
  repeat match goal with
         | |- context [match ?x with _ => _ end] => destruct x
         end; intros [= <- <- <-]; try reflexivity.
  split; reflexivity.
Qed.

Lemma generate_outcome s next kty size props s' next' c :
  KeyStore.generate s next kty size props = (s', next', c) ->
  match c with
  | Resolves key => s' = KeyStore.file s key /\ key_ref key = next
  | _ => s' = s
  end.
Proof.
  unfold KeyStore.generate.
  destruct (Registry.get (registry s) kty) as [keytype |];
    [| destruct (Registry.foreign _ _); intros [= <- <- <-]; reflexivity].
  destruct (KeyStore.with_kty props kty) as [fields |];
    [| intros [= <- <- <-]; reflexivity].
  destruct (fac_generate keytype size) as [e | e | jwk | name e];
    try (intros [= <- <- <-]; reflexivity).
  destruct (KeyStore.add s next _) as [[s1 next1] c1] eqn:Hadd.
  apply add_outcome in Hadd.
  destruct c1; intros [= <- <- <-]; assumption.
Qed.

(** A fulfilled [add] has met no inherited member under the identifier of
    the new key. *)
Lemma add_fulfilled_plain s next jwk s' next' key :
  KeyStore.add s next jwk = (s', next', Resolves key) ->
  KeyStore.stray s (default "" (key_kid key)) = false.
Proof.
  unfold KeyStore.add.
  destruct (KeyStore.normalize jwk) as [e0 | d]; [discriminate |].
  destruct (data_prop d "kty") as [kty |]; [| discriminate].
  destruct (Registry.get (registry s) kty) as [keytype |];
    [| destruct (Registry.foreign _ _); discriminate].
  destruct (fac_prepare keytype d) as [e0 | e0 | cfg | n0 e0]; try discriminate.
  destruct (BaseKey kty (store_ref s) d cfg) as [e0 | obj]; [discriminate |].
  simpl. destruct (KeyStore.stray s _) eqn:Hs.
  - destruct (_ =? proto); discriminate.
  - intros [= _ _ <-]. exact Hs.
Qed.

Lemma generate_fulfilled_plain s next kty size props s' next' key :
  KeyStore.generate s next kty size props = (s', next', Resolves key) ->
  KeyStore.stray s (default "" (key_kid key)) = false.
Proof.
  unfold KeyStore.generate.
  destruct (Registry.get (registry s) kty) as [keytype |];
    [| destruct (Registry.foreign _ _); discriminate].
  destruct (KeyStore.with_kty props kty) as [fields |]; [| discriminate].
  destruct (fac_generate keytype size) as [e0 | e0 | jwk | n0 e0];
    try discriminate.
  destruct (KeyStore.add s next _) as [[s1 next1] c1] eqn:Hadd.
  destruct c1; try discriminate.
  intros [= <- <- <-]. apply (add_fulfilled_plain _ _ _ _ _ _ Hadd).
Qed.

(** Where [add] spoils [keysets]: the identifier of the new key names a
    method that [keysets] inherits and has no bucket for, and the promise
    is rejected with a TypeError. *)
Lemma add_spoils s next jwk s' next' name e :
  KeyStore.add s next jwk = (s', next', Spoils name e) ->
  e = TypeError /\ inherited name = true
  /\ Obj.lookup (keysets s) name = None.
Proof.
  unfold KeyStore.add.
  destruct (KeyStore.normalize jwk) as [e0 | d]; [discriminate |].
  destruct (data_prop d "kty") as [kty |]; [| discriminate].
  destruct (Registry.get (registry s) kty) as [keytype |];
    [| destruct (Registry.foreign _ _); discriminate].
  destruct (fac_prepare keytype d) as [e0 | e0 | cfg | n0 e0]; try discriminate.
  destruct (BaseKey kty (store_ref s) d cfg) as [e0 | obj]; [discriminate |].
  simpl. unfold KeyStore.stray.
  destruct (Obj.lookup (keysets s) _) as [keys |] eqn:Hl; [discriminate |].
  destruct (inherited _) eqn:Hi; simpl.
  - destruct (_ =? proto); [discriminate |].
    intros [= _ _ <- <-]. auto.
  - destruct (_ =? proto); discriminate.
Qed.

Lemma generate_spoils s next kty size props s' next' name e :
  KeyStore.generate s next kty size props = (s', next', Spoils name e) ->
  e = TypeError /\ inherited name = true
  /\ Obj.lookup (keysets s) name = None.
Proof.
  unfold KeyStore.generate.
  destruct (Registry.get (registry s) kty) as [keytype |];
    [| destruct (Registry.foreign _ _); discriminate].
  destruct (KeyStore.with_kty props kty) as [fields |]; [| discriminate].
  destruct (fac_generate keytype size) as [e0 | e0 | jwk | n0 e0];
    try discriminate.
  destruct (KeyStore.add s next _) as [[s1 next1] c1] eqn:Hadd.
  destruct c1; try discriminate.
  intros [= <- <- <- <-]. apply (add_spoils _ _ _ _ _ _ _ Hadd).
Qed.

(** [add] and [generate] write to [keysets] in their last step only.  When
    the promise is fulfilled, one key has been appended, to the bucket of
    its identifier, and the other buckets are as before.  When the call
    throws or the promise is rejected, the store is as before, but for
    the outcome [Spoils], which is that of an identifier that names an
    inherited method. *)
Lemma add_and_generate_write_last s next :
  (forall jwk,
     let '(s', _, c) := KeyStore.add s next jwk in
     match c with
     | Resolves key =>
         keysets s'
         = Obj.store (keysets s) (default "" (key_kid key))
             (KeyStore.bucket s (default "" (key_kid key)) ++ [key])
         /\ KeyStore.stray s (default "" (key_kid key)) = false
         /\ forall id,
              KeyStore.bucket s' id
              = if default "" (key_kid key) =? id
                then KeyStore.bucket s id ++ [key]
                else KeyStore.bucket s id
     | Spoils name e =>
         e = TypeError /\ inherited name = true
         /\ Obj.lookup (keysets s) name = None
     | _ => s' = s
     end)
  /\ (forall kty size props,
        let '(s', _, c) := KeyStore.generate s next kty size props in
        match c with
        | Resolves key =>
            keysets s'
            = Obj.store (keysets s) (default "" (key_kid key))
                (KeyStore.bucket s (default "" (key_kid key)) ++ [key])
            /\ KeyStore.stray s (default "" (key_kid key)) = false
            /\ forall id,
                 KeyStore.bucket s' id
                 = if default "" (key_kid key) =? id
                   then KeyStore.bucket s id ++ [key]
                   else KeyStore.bucket s id
        | Spoils name e =>
            e = TypeError /\ inherited name = true
            /\ Obj.lookup (keysets s) name = None
        | _ => s' = s
        end).
Proof.
  split.
  - intros jwk. destruct (KeyStore.add s next jwk) as [[s' next'] c] eqn:Hadd.
    pose proof (add_outcome _ _ _ _ _ _ Hadd) as Hout.
    destruct c; try assumption.
    + destruct Hout as [-> _]. split; [reflexivity |].
      split; [apply (add_fulfilled_plain _ _ _ _ _ _ Hadd) |].
      intros id. apply bucket_file.
    + apply (add_spoils _ _ _ _ _ _ _ Hadd).
  - intros kty size props.
    destruct (KeyStore.generate s next kty size props) as [[s' next'] c] eqn:Hgen.
    pose proof (generate_outcome _ _ _ _ _ _ _ _ Hgen) as Hout.
    destruct c; try assumption.
    + destruct Hout as [-> _]. split; [reflexivity |].
      split; [apply (generate_fulfilled_plain _ _ _ _ _ _ _ _ Hgen) |].
      intros id. apply bucket_file.
    + apply (generate_spoils _ _ _ _ _ _ _ _ _ Hgen).
Qed.

(** What [add(k)] does for a Key [k]: it takes the JSON form
    [k.toJSON(true)], the one with the private fields, looks the factory of
    its type tag up, and builds a new Key from that form and the prepared
    configuration.  The new Key has a new identity: it is not [k], and it
    is the one key the store has gained. *)
Theorem add_key_duplicates_with_private s next k s' next' key :
  (key_ref k < next)%nat ->
  KeyStore.add s next (KeyStore.InKey k) = (s', next', Resolves key) ->
  KeyStore.normalize (KeyStore.InKey k) = Return (key_toJSON k (VBool true))
  /\ (exists kty keytype cfg,
        data_prop (key_toJSON k (VBool true)) "kty" = Some kty
        /\ Registry.get (registry s) kty = Some keytype
        /\ fac_prepare keytype (key_toJSON k (VBool true)) = Resolves cfg
        /\ BaseKey kty (store_ref s) (key_toJSON k (VBool true)) cfg
           = inr (key_obj key))
  /\ same_key key k = false
  /\ forall id,
       KeyStore.bucket s' id
       = if default "" (key_kid key) =? id
         then KeyStore.bucket s id ++ [key]
         else KeyStore.bucket s id.
Proof.
  intros Hfresh Hadd. split; [reflexivity |].
  pose proof (add_outcome _ _ _ _ _ _ Hadd) as [-> Href]. simpl in Href.
  split; [| split].
  - revert Hadd. unfold KeyStore.add. simpl.
    destruct (data_prop _ "kty") as [kty |] eqn:Hk; [| discriminate].
    destruct (Registry.get (registry s) kty) as [keytype |] eqn:Hg;
      [| destruct (Registry.foreign _ _); discriminate].
    destruct (fac_prepare keytype _) as [e | e | cfg | name e] eqn:Hc;
      try discriminate.
    destruct (BaseKey kty (store_ref s) _ cfg) as [e | obj] eqn:Hb;
      [discriminate |].
    simpl. destruct (KeyStore.stray s _);
      [destruct (_ =? proto); discriminate |].
    intros [= _ _ <-]. exists kty, keytype, cfg. simpl. auto.
  - unfold same_key. apply Nat.eqb_neq. lia.
  - intros id. apply bucket_file.
Qed.

(** C4, as the code has it: for a text that [JSON.parse] refuses,
    [asKeyStore] throws the SyntaxError itself, before any promise
    exists; it does not return a rejected promise. *)
Theorem asKeyStore_throws_on_bad_text global next text :
  JSON_parse text = None ->
  KeyStore.asKeyStore global next (KeyStore.IsData (DStr text))
  = (S next, Throws SyntaxError).
Proof. intros Hp. unfold KeyStore.asKeyStore. simpl. rewrite Hp. reflexivity. Qed.

(** A key without an identifier is looked for under the name "undefined":
    where no bucket has that name, [remove] leaves the store as it is. *)
Lemma remove_anonymous s k :
  key_kid k = None ->
  Obj.lookup (keysets s) "undefined" = None ->
  KeyStore.remove s (Some k) = s.
Proof.
  intros Hk Hu. unfold KeyStore.remove. rewrite Hk. simpl. rewrite Hu.
  reflexivity.
Qed.

End ChangeProperties.

(** ** The operations on the sample objects *)

Section Samples.
Import Fixture.

(** C1, as the code has it: [get] hands the parent's result on as
    [candidates[0] || null], but that result is a Key or null, not an
    array.  [root] finds the key "a"; its empty child [child], asked for
    the same key, returns null; asked for a key that [root] does not have,
    it throws a TypeError; so does the store above [child]. *)
Theorem get_loses_the_parents_key :
  snd (KeyStore.get root ∅ (VStr "a") VUndef VUndef) = Return (Some key_a)
  /\ snd (KeyStore.get child ∅ (VStr "a") VUndef VUndef) = Return None
  /\ snd (KeyStore.get root ∅ (VStr "b") VUndef VUndef) = Return None
  /\ snd (KeyStore.get child ∅ (VStr "b") VUndef VUndef) = Throw TypeError
  /\ snd (KeyStore.get grandchild ∅ (VStr "a") VUndef VUndef) = Throw TypeError.
Proof. repeat (split; [reflexivity |]). reflexivity. Qed.

(** C2 fails as stated: the filter [alg: "dir"] with no other clause does
    not accept every key.  The RSA key of [root] does not support "dir" and
    is rejected, and [all] leaves it out. *)
Lemma dir_filter_rejects_key_without_support :
  ~ (forall (H : heap) (props : jsval) (key : Key),
       get_prop H props "alg" = VStr "dir" ->
       KeyStore.differs H props "kty" (key_kty key) = false ->
       KeyStore.differs H props "use" (key_use key) = false ->
       KeyStore.matches H props key = true)
  /\ KeyStore.all root objects (VRef 0) VUndef = [key_a].
Proof.
  split; [| reflexivity].
  intros Hall.
  specialize (Hall objects (VRef 0) key_rsa eq_refl eq_refl eq_refl).
  assert (Hno : KeyStore.matches objects (VRef 0) key_rsa = false)
    by reflexivity.
  congruence.
Qed.

(** The RSA key, which does not support "dir", and the symmetric key,
    which does. *)
Lemma matches_dir_needs_support_witness :
  KeyStore.matches objects (VRef 0) key_rsa = false
  /\ KeyStore.matches objects (VRef 0) key_a = true.
Proof.
  split.
  - rewrite (proj1 (matches_dir_needs_support objects (VRef 0) key_rsa eq_refl)).
    reflexivity.
  - rewrite (proj1 (matches_dir_needs_support objects (VRef 0) key_a eq_refl)).
    reflexivity.
Defined.

(** C3, as the code has it: [add] does not work from the public JSON form
    of the key, the one its own description names, but from
    [jwk.toJSON(true)].  For [key_a] the form it takes holds the private
    field [k] and the new key keeps it; [add] of the public form is another
    call, which the factory does not even accept. *)
Theorem add_key_keeps_private_fields :
  ~ (forall (s : JWKStore) (next : nat) (k : Key),
       KeyStore.add s next (KeyStore.InKey k)
       = KeyStore.add s next (KeyStore.InData (key_toJSON k (VBool false))))
  /\ KeyStore.normalize (KeyStore.InKey key_a)
     = Return (DObj [("kty", DStr "oct"); ("kid", DStr "a");
                     ("k", DStr "c2VjcmV0")])
  /\ key_toJSON key_a (VBool false)
     = DObj [("kty", DStr "oct"); ("kid", DStr "a")].
Proof.
  split; [| split; reflexivity].
  intros Hall. specialize (Hall blank 20%nat key_a).
  apply (f_equal snd) in Hall.
  change (Resolves copy_a = @Rejects Key (Error "missing key value")) in Hall.
  discriminate.
Qed.

(** [key_a] added to the empty store [blank]. *)
Lemma add_key_duplicates_with_private_witness :
  KeyStore.add blank 20 (KeyStore.InKey key_a)
  = (KeyStore.file blank copy_a, 21%nat, Resolves copy_a)
  /\ same_key copy_a key_a = false
  /\ KeyStore.bucket (KeyStore.file blank copy_a) "a" = [copy_a].
Proof.
  assert (Hadd : KeyStore.add blank 20 (KeyStore.InKey key_a)
                 = (KeyStore.file blank copy_a, 21%nat, Resolves copy_a))
    by reflexivity.
  assert (Hfresh : (key_ref key_a < 20)%nat) by (simpl; lia).
  destruct (add_key_duplicates_with_private blank 20 key_a _ _ _ Hfresh Hadd)
    as (_ & _ & Hnew & Hbucket).
  split; [exact Hadd |]. split; [exact Hnew |].
  rewrite (Hbucket "a"). reflexivity.
Defined.

(** The text "not json". *)
Lemma asKeyStore_throws_on_bad_text_witness :
  KeyStore.asKeyStore global 0 (KeyStore.IsData (DStr "not json"))
  = (1%nat, Throws SyntaxError).
Proof. apply asKeyStore_throws_on_bad_text. reflexivity. Defined.

(** C5, as the code has it: [add] files a key without identifier under the
    empty name, but [remove] looks for it under the name "undefined".
    After such a key is added to an empty store, [remove] of that key
    leaves the store as it is, the key still in it. *)
Theorem remove_misses_key_without_id :
  KeyStore.add blank 20 (KeyStore.InData anonymous)
  = (KeyStore.file blank fresh_anon, 21%nat, Resolves fresh_anon)
  /\ key_kid fresh_anon = None
  /\ keysets (KeyStore.file blank fresh_anon) = [("", [fresh_anon])]
  /\ KeyStore.remove (KeyStore.file blank fresh_anon) (Some fresh_anon)
     = KeyStore.file blank fresh_anon
  /\ KeyStore.own_keys
       (KeyStore.remove (KeyStore.file blank fresh_anon) (Some fresh_anon))
     = [fresh_anon].
Proof. repeat (split; [reflexivity |]). reflexivity. Qed.

(** C6, as the code has it: the write into [keysets] is not the last
    step that can fail.  For the key data [odd], whose identifier is
    "constructor", the type is known, the factory prepares the key and the
    key is made; then [keysets["constructor"] || []] is the method that
    [keysets] inherits, the assignment writes it into [keysets], and
    [keys.push] fails: the promise is rejected with a TypeError when
    [keysets] has been changed already, which is the outcome [Spoils].
    The same holds of [generate] with that identifier among the
    properties.  With the identifier "a" the same data is filed. *)
Theorem add_writes_keysets_before_it_fails :
  KeyStore.add blank 20 (KeyStore.InData odd)
  = (blank, 20%nat, Spoils "constructor" TypeError)
  /\ KeyStore.generate blank 20 (DStr "oct") DUndef
       (DObj [("kid", DStr "constructor")])
     = (blank, 20%nat, Spoils "constructor" TypeError)
  /\ Registry.get (registry blank) (DStr "oct") = Some oct
  /\ fac_prepare oct odd
     = Resolves {| private := ["k"]; algorithms := ["dir"; "HS256"] |}
  /\ BaseKey (DStr "oct") (store_ref blank) odd
       {| private := ["k"]; algorithms := ["dir"; "HS256"] |}
     = inr (key_obj key_odd)
  /\ key_kid key_odd = Some "constructor"
  /\ KeyStore.stray blank "constructor" = true
  /\ KeyStore.add blank 20 (KeyStore.InData named)
     = (KeyStore.file blank copy_a, 21%nat, Resolves copy_a).
Proof. repeat (split; [reflexivity |]). reflexivity. Qed.

(** In the empty store [blank]: [key_a] added, a key of a type without
    factory refused, and a generation that the factory rejects. *)
Example add_and_generate_on_blank :
  KeyStore.add blank 20 (KeyStore.InKey key_a)
  = (KeyStore.file blank copy_a, 21%nat, Resolves copy_a)
  /\ KeyStore.add blank 20 (KeyStore.InData (DObj [("kty", DStr "EC")]))
     = (blank, 20%nat, Rejects (Error "unsupported key type"))
  /\ KeyStore.generate blank 20 (DStr "RSA") DUndef DUndef
     = (blank, 20%nat, Rejects (Error "not enough entropy"))
  /\ KeyStore.generate blank 20 (DStr "oct") DUndef (DStr "props")
     = (blank, 20%nat, Throws TypeError)
  /\ KeyStore.add blank 20 (KeyStore.InData (DObj [("kty", DStr "toString")]))
     = (blank, 20%nat, Throws TypeError).
Proof. repeat (split; [reflexivity |]). reflexivity. Qed.

(** Which rejection [asKeyStore] ends with.  The first element is
    rejected by the factory, in a callback, the second has no factory and
    its promise is rejected from the start: the second reason is the one
    the caller gets.  Of two promises rejected in callbacks the first
    wins. *)
Example asKeyStore_first_rejection :
  KeyStore.asKeyStore global 0
    (KeyStore.IsData (DArr [DObj [("kty", DStr "oct")];
                            DObj [("kty", DStr "EC")]]))
  = (1%nat, Rejects (Error "unsupported key type"))
  /\ KeyStore.asKeyStore global 0
       (KeyStore.IsData (DArr [DObj [("kty", DStr "oct")]; odd]))
     = (1%nat, Rejects (Error "missing key value"))
  /\ KeyStore.asKeyStore global 0
       (KeyStore.IsData (DArr [odd; DObj [("kty", DStr "oct")]]))
     = (1%nat, Rejects TypeError).
Proof. repeat (split; [reflexivity |]). reflexivity. Qed.

(** The properties [generate] is given, with the type tag set: none, an
    object, an array, and a number, on which the tag cannot be set. *)
Example properties_with_type_tag :
  KeyStore.with_kty DUndef (DStr "oct") = Some [("kty", DStr "oct")]
  /\ KeyStore.with_kty (DObj [("kty", DStr "EC"); ("use", DStr "sig")])
       (DStr "oct")
     = Some [("kty", DStr "oct"); ("use", DStr "sig")]
  /\ KeyStore.with_kty (DArr [DNum 7; DNum 8]) (DStr "oct")
     = Some [("0", DNum 7); ("1", DNum 8); ("kty", DStr "oct")]
  /\ KeyStore.with_kty (DNum 5) (DStr "oct") = None
  /\ KeyStore.with_kty (DNum 0) (DStr "oct") = Some [("kty", DStr "oct")].
Proof. repeat (split; [reflexivity |]). reflexivity. Qed.

(** [remove] of a key whose identifier names an inherited method throws
    and leaves the store as it is. *)
Example remove_of_inherited_name :
  KeyStore.remove_throws root (Some key_odd) = true
  /\ KeyStore.remove root (Some key_odd) = root
  /\ KeyStore.remove_throws root (Some key_a) = false.
Proof. repeat (split; [reflexivity |]). reflexivity. Qed.

(** Two factories of the same tag registered one after the other, a
    factory without tag, and no factory. *)
Lemma register_stores_or_throws_witness :
  Registry.register ∅ (Some oct) = Return {[ "oct" := oct ]}
  /\ Registry.register {[ "oct" := oct ]} (Some oct') = Return {[ "oct" := oct' ]}
  /\ Registry.get {[ "oct" := oct' ]} (DStr "oct") = Some oct'
  /\ (exists e, Registry.register ∅ (Some untagged) = Throw e)
  /\ (exists e, Registry.register (∅ : gmap string Factory) None = Throw e).
Proof.
  assert (Ht : Registry.tagged oct "oct") by (split; [reflexivity | discriminate]).
  assert (Ht' : Registry.tagged oct' "oct") by (split; [reflexivity | discriminate]).
  destruct (proj2 (register_stores_or_throws ∅ (Some oct)) oct "oct" eq_refl Ht)
    as (Hreg & _ & Hnext).
  destruct (Hnext oct' Ht') as [Hreg' Hget'].
  rewrite insert_empty in Hreg, Hreg', Hget'.
  split; [exact Hreg |]. split; [exact Hreg' |]. split; [exact Hget' |]. split.
  - apply (proj1 (register_stores_or_throws ∅ (Some untagged))).
    right. exists untagged. split; [reflexivity |].
    intros tag [Hk _]. discriminate.
  - apply (proj1 (register_stores_or_throws ∅ None)). left. reflexivity.
Defined.

(** The store [branch], whose parent is [root]. *)
Lemma all_is_local_then_parent_witness :
  KeyStore.all branch objects (VRef 1) VUndef = [key_anon; key_a; key_rsa]
  /\ KeyStore.all branch objects (VRef 1) (VBool true) = [key_anon]
  /\ KeyStore.all root objects (VRef 1) VUndef = [key_a; key_rsa].
Proof.
  destruct (all_is_local_then_parent branch root objects (VRef 1) VUndef
              eq_refl eq_refl) as (Happ & _).
  assert (Hown : KeyStore.all branch objects (VRef 1) (VBool true) = [key_anon])
    by reflexivity.
  assert (Hpar : KeyStore.all root objects (VRef 1) VUndef = [key_a; key_rsa])
    by reflexivity.
  rewrite Happ, Hown, Hpar. repeat split.
Defined.

(** [child.get("a", props)] with the filter at address 1: the filter has
    gained [kid], although the call finds no key. *)
Lemma get_writes_kid_into_filter_witness :
  get_prop (fst (KeyStore.get child objects (VStr "a") (VRef 1) VUndef))
    (VRef 1) "kid" = VStr "a"
  /\ get_prop objects (VRef 1) "kid" = VUndef
  /\ snd (KeyStore.get child objects (VStr "a") (VRef 1) VUndef) = Return None.
Proof.
  assert (Hne : "a" <> "") by discriminate.
  split; [| split].
  - exact (proj2 (get_writes_kid_into_filter child objects "a" 1 VUndef Hne)).
  - reflexivity.
  - reflexivity.
Defined.

(** Names that are array indices come first, by value; the others follow
    in the order of their creation. *)
Example keys_of_mixed_names :
  Obj.keys [("b", 1%nat); ("10", 2%nat); ("a", 3%nat); ("2", 4%nat);
            ("02", 5%nat); ("", 6%nat)]
  = ["2"; "10"; "b"; "a"; "02"; ""].
Proof. reflexivity. Qed.

(** [toJSON] of the store [branch] holds its own key and none of its
    parent's, which [all] does return. *)
Example toJSON_leaves_parent_out :
  KeyStore.toJSON branch (VBool true)
  = DObj [("keys", DArr [DObj [("kty", DStr "oct"); ("k", DStr "c2VjcmV0")]])]
  /\ KeyStore.toJSON branch VUndef
     = DObj [("keys", DArr [DObj [("kty", DStr "oct")]])]
  /\ KeyStore.all branch ∅ VUndef VUndef = [key_anon; key_a; key_rsa].
Proof. repeat (split; [reflexivity |]). reflexivity. Qed.

End Samples.

(** ** More on the registry *)

Section RegistryLifecycle.
Context {host : Host}.
Implicit Types (t : gmap string Factory) (f g : Factory).

Lemma unregister_tagged t f tag :
  Registry.tagged f tag ->
  Registry.unregister t (Some f)
  = match t !! tag with
    | Some g =>
        if (fac_ref f =? fac_ref g)%nat
        then Return (if tag =? proto then t else delete tag t)
        else Return t
    | None => Return t
    end.
Proof.
  intros Ht. unfold Registry.unregister.
  rewrite (invalid_tagged f tag Ht). destruct Ht as [-> _]. reflexivity.
Qed.

(** What [get] returns for a string where it returns no registered
    factory. *)
Lemma foreign_tag t tag :
  Registry.foreign t (DStr tag)
  = match t !! tag with
    | Some _ => false
    | None => Registry.inherits t tag
    end.
Proof.
  unfold Registry.foreign. simpl.
  destruct (String.eqb_spec tag "") as [-> |]; reflexivity.
Qed.

Lemma inherits_not_proto t tag : Registry.inherits t tag = false -> tag <> proto.
Proof.
  unfold Registry.inherits. intros Hi ->.
  rewrite String.eqb_refl, orb_true_r in Hi. discriminate.
Qed.

(** What [types] inherits depends on its prototype only. *)
Lemma inherits_same t t' name :
  t' !! proto = t !! proto -> Registry.inherits t' name = Registry.inherits t name.
Proof. intros Hp. unfold Registry.inherits. rewrite Hp. reflexivity. Qed.

(** X1: a factory that was registered is unregistered again by the same
    object.  When the tag names no member that [types] inherits, [get]
    then returns undefined for it, and if the tag was unknown before the
    registration, the registry is as it was. *)
Theorem unregister_undoes_register t f tag :
  Registry.tagged f tag ->
  Registry.inherits t tag = false ->
  exists t1,
    Registry.register t (Some f) = Return t1
    /\ Registry.get t1 (DStr tag) = Some f
    /\ Registry.unregister t1 (Some f) = Return (delete tag t)
    /\ Registry.get (delete tag t) (DStr tag) = None
    /\ Registry.foreign (delete tag t) (DStr tag) = false
    /\ (t !! tag = None -> delete tag t = t).
Proof.
  intros Ht Hplain. pose proof (inherits_not_proto t tag Hplain) as Hnp.
  pose proof Ht as [_ Hne].
  exists (<[tag := f]> t).
  split; [apply register_tagged; assumption |].
  split; [rewrite get_tag by assumption; apply lookup_insert_eq |].
  split; [| split; [| split]].
  - rewrite (unregister_tagged _ f tag Ht), lookup_insert_eq, Nat.eqb_refl.
    destruct (String.eqb_spec tag proto); [contradiction |].
    f_equal. apply delete_insert_eq.
  - rewrite get_tag by assumption. apply lookup_delete_eq.
  - rewrite foreign_tag, lookup_delete_eq.
    rewrite (inherits_same t (delete tag t)); [assumption |].
    apply lookup_delete_ne. assumption.
  - intros Hnone. apply delete_id. assumption.
Qed.

(** X2: [unregister] throws on the arguments [register] throws on;
    otherwise it removes the entry of the tag only when the factory stored
    there is the very object it is given: for an unknown tag, or a tag held
    by another factory, the registry stays as it is. *)
Theorem unregister_needs_same_factory t factory :
  ((exists e, Registry.unregister t factory = Throw e) <->
   (exists e, Registry.register t factory = Throw e))
  /\ (forall f tag,
        factory = Some f -> Registry.tagged f tag ->
        (t !! tag = None -> Registry.unregister t factory = Return t)
        /\ (forall g, t !! tag = Some g -> fac_ref f <> fac_ref g ->
              Registry.unregister t factory = Return t
              /\ Registry.get t (DStr tag) = Some g)).
Proof.
  split.
  - unfold Registry.unregister, Registry.register.
    destruct (Registry.invalid factory) eqn:Hi.
    + split; intros _; eexists; reflexivity.
    + destruct factory as [f|]; [| discriminate Hi].
      split; intros [e He].
      * destruct (t !! _) as [g|]; [destruct (_ =? _)%nat |]; discriminate.
      * discriminate.
  - intros f tag -> Ht. rewrite (unregister_tagged t f tag Ht). split.
    + intros ->. reflexivity.
    + intros g Hg Hne. rewrite Hg.
      destruct (Nat.eqb_spec (fac_ref f) (fac_ref g)); [contradiction |].
      split; [reflexivity |].
      destruct Ht as [_ Hn]. rewrite get_tag by assumption. exact Hg.
Qed.

(** X3: the registry keeps every factory under its own non-empty type tag:
    this holds of the empty registry and after [register] and
    [unregister].  In such a registry [get] returns undefined for an empty
    or missing tag, and a registered factory that it returns for a string
    has that string for its tag. *)
Theorem registry_stays_sound t :
  Registry.sound (∅ : gmap string Factory)
  /\ (Registry.sound t ->
      (forall factory t',
         Registry.register t factory = Return t' -> Registry.sound t')
      /\ (forall factory t',
            Registry.unregister t factory = Return t' -> Registry.sound t')
      /\ (forall kty, truthy_data kty = false ->
            Registry.get t kty = None /\ Registry.foreign t kty = false)
      /\ (forall tag f,
            Registry.get t (DStr tag) = Some f ->
            fac_kty f = DStr tag /\ tag <> ""
            /\ Registry.foreign t (DStr tag) = false)).
Proof.
  split.
  - intros name f Hl. rewrite lookup_empty in Hl. discriminate.
  - intros Hs. split; [| split; [| split]].
    + intros [f|] t'; unfold Registry.register;
        destruct (Registry.invalid _) eqn:Hi; try discriminate.
      intros [= <-]. intros name g Hl.
      assert (Ht : Registry.tagged f (Registry.prop_key (fac_kty f))).
      { unfold Registry.invalid in Hi. destruct (fac_kty f) eqn:Hk; try discriminate.
        simpl in Hi. split; [exact Hk |].
        simpl. destruct (String.eqb_spec s ""); [discriminate | assumption]. }
      destruct (decide (Registry.prop_key (fac_kty f) = name)) as [<- | Hne].
      * rewrite lookup_insert_eq in Hl. injection Hl as <-. exact Ht.
      * rewrite lookup_insert_ne in Hl by assumption. apply Hs. assumption.
    + intros [f|] t'; unfold Registry.unregister;
        destruct (Registry.invalid _) eqn:Hi; try discriminate.
      destruct (t !! _) as [g|] eqn:Hg.
      * destruct (_ =? _)%nat; [destruct (_ =? proto) |];
          intros [= <-]; try exact Hs.
        intros name h Hl. apply lookup_delete_Some in Hl as [_ Hl].
        apply Hs. assumption.
      * intros [= <-]. exact Hs.
    + intros kty Hf.
      assert (Hnone : t !! "" = None).
      { destruct (t !! "") as [f|] eqn:Hl; [| reflexivity].
        destruct (Hs "" f Hl) as [_ Hne]. contradiction. }
      unfold Registry.foreign, Registry.get. rewrite Hf, Hnone.
      split; [reflexivity |].
      unfold Registry.inherits. simpl. destruct (t !! proto); reflexivity.
    + intros tag f Hg. rewrite foreign_tag.
      unfold Registry.get in Hg. simpl in Hg.
      destruct (String.eqb_spec tag "") as [-> | Hne]; simpl in Hg.
      * destruct (Hs "" f Hg) as [_ Hne]. contradiction.
      * destruct (Hs tag f Hg) as [Hk _]. rewrite Hg. auto.
Qed.

(** X4: [register] and [unregister] of a factory whose tag is not
    "__proto__" touch the entry of that tag only: for every other name
    [get] returns what it returned before. *)
Theorem registry_other_tags_kept t f tag t' other :
  Registry.tagged f tag ->
  tag <> proto ->
  Registry.register t (Some f) = Return t'
  \/ Registry.unregister t (Some f) = Return t' ->
  other <> tag ->
  Registry.get t' (DStr other) = Registry.get t (DStr other)
  /\ Registry.foreign t' (DStr other) = Registry.foreign t (DStr other).
Proof.
  intros Ht Hnp Hop Hne.
  assert (Hl : forall name, name <> tag -> t' !! name = t !! name).
  { intros name Hname. destruct Hop as [Hr | Hu].
    - rewrite (register_tagged t f tag Ht) in Hr. injection Hr as <-.
      apply lookup_insert_ne. congruence.
    - rewrite (unregister_tagged t f tag Ht) in Hu.
      destruct (t !! tag) as [g|];
        [destruct (_ =? _)%nat; [destruct (_ =? proto) |] |];
        injection Hu as <-; try reflexivity.
      apply lookup_delete_ne. congruence. }
  split.
  - unfold Registry.get. simpl.
    destruct (String.eqb_spec other "") as [-> |]; apply Hl; assumption.
  - rewrite !foreign_tag, (Hl other Hne).
    rewrite (inherits_same t t'); [reflexivity |].
    apply Hl. congruence.
Qed.

End RegistryLifecycle.

(** ** Ordered objects: reading, writing, deleting *)

Section ObjProperties.
Context {V : Type}.
Implicit Types (o : list (string * V)) (name other : string) (v w : V).

Lemma lookup_some_in o name v : Obj.lookup o name = Some v -> In (name, v) o.
Proof.
  induction o as [|[n x] o IH]; simpl; [discriminate |].
  destruct (String.eqb_spec n name) as [-> |].
  - intros [= ->]. left. reflexivity.
  - intros Hl. right. apply IH. assumption.
Qed.

Lemma lookup_none_names o name :
  Obj.lookup o name = None <-> ~ In name (map fst o).
Proof.
  induction o as [|[n x] o IH]; simpl; [tauto |].
  destruct (String.eqb_spec n name) as [-> |].
  - split; [discriminate | intros Hn; exfalso; apply Hn; left; reflexivity].
  - rewrite IH. tauto.
Qed.

Lemma in_lookup o name v :
  NoDup (map fst o) -> In (name, v) o -> Obj.lookup o name = Some v.
Proof.
  induction o as [|[n x] o IH]; simpl; intros Hnd Hin; [destruct Hin |].
  apply NoDup_cons in Hnd as [Hnot Hnd']. rewrite list_elem_of_In in Hnot.
  destruct Hin as [[= -> ->] | Hin].
  - rewrite String.eqb_refl. reflexivity.
  - destruct (String.eqb_spec n name) as [-> |]; [| apply IH; assumption].
    exfalso. apply Hnot. apply (in_map fst) in Hin. exact Hin.
Qed.

Lemma names_store o name v :
  map fst (Obj.store o name v)
  = match Obj.lookup o name with
    | Some _ => map fst o
    | None => map fst o ++ [name]
    end.
Proof.
  induction o as [|[n x] o IH]; simpl; [reflexivity |].
  destruct (String.eqb_spec n name) as [-> |]; simpl; [reflexivity |].
  rewrite IH. destruct (Obj.lookup o name); reflexivity.
Qed.

Lemma nodup_store o name v :
  NoDup (map fst o) -> NoDup (map fst (Obj.store o name v)).
Proof.
  intros Hnd. rewrite names_store.
  destruct (Obj.lookup o name) eqn:Hl; [assumption |].
  apply NoDup_app. split; [assumption |]. split.
  - intros x Hx Hin. apply list_elem_of_In in Hx.
    apply list_elem_of_singleton in Hin. subst.
    apply lookup_none_names in Hl. contradiction.
  - apply NoDup_singleton.
Qed.

Lemma in_store o name v other w :
  In (other, w) (Obj.store o name v) ->
  (other = name /\ w = v) \/ In (other, w) o.
Proof.
  induction o as [|[n x] o IH]; simpl.
  - intros [[= <- <-] | []]. left. split; reflexivity.
  - destruct (String.eqb_spec n name) as [-> |]; simpl.
    + intros [[= <- <-] | Hin]; [left; split; reflexivity | right; right; assumption].
    + intros [Heq | Hin]; [right; left; assumption |].
      destruct (IH Hin) as [? | ?]; [left; assumption | right; right; assumption].
Qed.

Lemma in_remove o name other w :
  In (other, w) (Obj.remove o name) -> In (other, w) o.
Proof.
  induction o as [|[n x] o IH]; simpl; [tauto |].
  destruct (String.eqb_spec n name) as [-> |]; simpl; [tauto |].
  intros [Heq | Hin]; [left; assumption | right; apply IH; assumption].
Qed.

Lemma names_remove_sub o name other :
  In other (map fst (Obj.remove o name)) -> In other (map fst o).
Proof.
  induction o as [|[n x] o IH]; simpl; [tauto |].
  destruct (String.eqb_spec n name) as [-> |]; simpl; [tauto |].
  intros [Heq | Hin]; [left; assumption | right; apply IH; assumption].
Qed.

Lemma nodup_remove o name :
  NoDup (map fst o) -> NoDup (map fst (Obj.remove o name)).
Proof.
  induction o as [|[n x] o IH]; simpl; intros Hnd; [apply NoDup_nil_2 |].
  apply NoDup_cons in Hnd as [Hnot Hnd']. rewrite list_elem_of_In in Hnot.
  destruct (String.eqb_spec n name) as [-> |]; simpl; [assumption |].
  apply NoDup_cons. split; [| apply IH; assumption].
  rewrite list_elem_of_In. intros Hin. apply Hnot.
  apply (names_remove_sub _ _ _ Hin).
Qed.

(** Once deleted, a name is not found, and the other names are found as
    before. *)
Lemma lookup_remove o name other :
  NoDup (map fst o) ->
  Obj.lookup (Obj.remove o name) other
  = if name =? other then None else Obj.lookup o other.
Proof.
  induction o as [|[n x] o IH]; simpl; intros Hnd.
  - destruct (name =? other); reflexivity.
  - apply NoDup_cons in Hnd as [Hnot Hnd']. rewrite list_elem_of_In in Hnot.
    destruct (String.eqb_spec n name) as [E | Hn]; simpl.
    + subst n. destruct (String.eqb_spec name other) as [E |]; [| reflexivity].
      subst other. apply lookup_none_names. assumption.
    + rewrite (IH Hnd').
      destruct (String.eqb_spec n other) as [E |]; [| reflexivity].
      subst n. destruct (String.eqb_spec name other); [congruence | reflexivity].
Qed.

Lemma remove_store_new o name v :
  Obj.lookup o name = None -> Obj.remove (Obj.store o name v) name = o.
Proof.
  induction o as [|[n x] o IH]; simpl.
  - intros _. rewrite String.eqb_refl. reflexivity.
  - destruct (String.eqb_spec n name) as [-> | Hn]; [discriminate |].
    intros Hl. simpl. destruct (String.eqb_spec n name); [contradiction |].
    rewrite (IH Hl). reflexivity.
Qed.

Lemma store_store o name v w :
  Obj.store (Obj.store o name v) name w = Obj.store o name w.
Proof.
  induction o as [|[n x] o IH]; simpl.
  - rewrite String.eqb_refl. reflexivity.
  - destruct (String.eqb_spec n name) as [-> | Hn]; simpl.
    + rewrite String.eqb_refl. reflexivity.
    + destruct (String.eqb_spec n name); [contradiction |].
      rewrite IH. reflexivity.
Qed.

Lemma store_same o name v :
  Obj.lookup o name = Some v -> Obj.store o name v = o.
Proof.
  induction o as [|[n x] o IH]; simpl; [discriminate |].
  destruct (String.eqb_spec n name) as [-> | Hn].
  - intros [= ->]. reflexivity.
  - intros Hl. rewrite (IH Hl). reflexivity.
Qed.

Lemma insert_index_perm i name (l : list (N * string)) :
  Obj.insert_index i name l ≡ₚ (i, name) :: l.
Proof.
  induction l as [|[j m] l IH]; simpl; [reflexivity |].
  destruct (i <=? j)%N; [reflexivity |].
  rewrite IH. apply perm_swap.
Qed.

Lemma indices_perm (names : list string) :
  map snd (Obj.indices names) ≡ₚ List.filter Obj.is_index names.
Proof.
  induction names as [|name names IH]; simpl; [reflexivity |].
  unfold Obj.is_index at 1.
  destruct (Obj.array_index name) as [i|]; [| exact IH].
  rewrite insert_index_perm. simpl. rewrite IH. reflexivity.
Qed.

Lemma filter_split_perm {A} (f : A -> bool) (l : list A) :
  List.filter f l ++ List.filter (fun x => negb (f x)) l ≡ₚ l.
Proof.
  induction l as [|x l IH]; simpl; [reflexivity |].
  destruct (f x); simpl.
  - rewrite IH. reflexivity.
  - rewrite <- Permutation_middle. rewrite IH. reflexivity.
Qed.

(** [Object.keys] gives every own name, once. *)
Lemma keys_perm o : Obj.keys o ≡ₚ map fst o.
Proof.
  unfold Obj.keys. rewrite indices_perm. apply filter_split_perm.
Qed.

Lemma keys_in o name : In name (Obj.keys o) <-> In name (map fst o).
Proof.
  split; intros Hin; apply list_elem_of_In; apply list_elem_of_In in Hin.
  - rewrite <- (keys_perm o). assumption.
  - rewrite (keys_perm o). assumption.
Qed.

Lemma lookups_of_names o :
  NoDup (map fst o) ->
  map (Obj.lookup o) (map fst o) = map Some (map snd o).
Proof.
  induction o as [|[n x] o IH]; simpl; intros Hnd; [reflexivity |].
  apply NoDup_cons in Hnd as [Hnot Hnd']. rewrite list_elem_of_In in Hnot.
  rewrite String.eqb_refl. f_equal. rewrite <- (IH Hnd').
  apply map_ext_in. intros m Hm.
  destruct (String.eqb_spec n m) as [-> |]; [contradiction | reflexivity].
Qed.

End ObjProperties.

(** ** The state a store is kept in *)

Section StoreInvariants.
Context {host : Host}.
Implicit Types (s : JWKStore) (key k : Key) (next : nat).

Lemma with_keysets_same s : KeyStore.with_keysets s (keysets s) = s.
Proof. destruct s; reflexivity. Qed.

Lemma concat_store_append (o : list (string * list Key)) id k :
  concat (map snd (Obj.store o id (default [] (Obj.lookup o id) ++ [k])))
  ≡ₚ concat (map snd o) ++ [k].
Proof.
  induction o as [|[n x] o IH]; simpl; [reflexivity |].
  destruct (String.eqb_spec n id) as [E | Hn]; simpl.
  - rewrite <- !app_assoc. apply Permutation_app_head.
    apply Permutation_app_comm.
  - rewrite IH. rewrite app_assoc. reflexivity.
Qed.

Lemma stored_file s k : KeyStore.stored (KeyStore.file s k) ≡ₚ KeyStore.stored s ++ [k].
Proof. unfold KeyStore.stored, KeyStore.file. simpl. apply concat_store_append. Qed.

(** The keys as [Object.keys] gives them are the keys of the buckets. *)
Lemma own_keys_stored s :
  NoDup (map fst (keysets s)) -> KeyStore.own_keys s ≡ₚ KeyStore.stored s.
Proof.
  intros Hnd. unfold KeyStore.own_keys, KeyStore.stored.
  rewrite (Permutation_flat_map (KeyStore.bucket s) (keys_perm (keysets s))).
  rewrite flat_map_concat_map.
  replace (map (KeyStore.bucket s) (map fst (keysets s)))
    with (map snd (keysets s)); [reflexivity |].
  transitivity (map (default []) (map (Obj.lookup (keysets s))
                                    (map fst (keysets s)))).
  - rewrite (lookups_of_names _ Hnd), map_map.
    rewrite <- (map_id (map snd (keysets s))) at 1.
    apply map_ext. reflexivity.
  - rewrite map_map. reflexivity.
Qed.

Lemma well_filed_file s k :
  KeyStore.well_filed s -> KeyStore.well_filed (KeyStore.file s k).
Proof.
  intros [Hnd Hb]. split; simpl.
  - apply nodup_store. assumption.
  - intros id keys Hin. apply in_store in Hin as [[-> ->] | Hin];
      [| apply Hb; assumption].
    split; [destruct (default _ _); discriminate |].
    intros k' Hk'. apply in_app_or in Hk' as [Hk' | [<- | []]]; [| reflexivity].
    destruct (Obj.lookup (keysets s) _) as [keys|] eqn:Hl; [| destruct Hk'].
    apply lookup_some_in in Hl. apply (Hb _ _ Hl). assumption.
Qed.

Lemma in_delete {A} (l : list A) (pos : nat) (x : A) :
  In x (delete pos l) -> In x l.
Proof.
  intros Hin. apply list_elem_of_In. apply list_elem_of_In in Hin.
  apply (elem_of_sublist _ _ _ Hin). apply sublist_delete.
Qed.

Lemma well_filed_remove s jwk :
  KeyStore.well_filed s -> KeyStore.well_filed (KeyStore.remove s jwk).
Proof.
  intros Hwf. pose proof Hwf as [Hnd Hb]. unfold KeyStore.remove.
  destruct jwk as [k|]; [| assumption].
  destruct (Obj.lookup (keysets s) _) as [keys|] eqn:Hl; [| assumption].
  destruct (KeyStore.indexOf keys k) as [pos|]; [| assumption].
  apply lookup_some_in in Hl. destruct (Hb _ _ Hl) as [_ Hk].
  destruct (Nat.eqb_spec (length (delete pos keys)) 0) as [He | Hne];
    split; simpl.
  - apply nodup_remove. assumption.
  - intros id ks Hin. apply Hb. apply (in_remove _ _ _ _ Hin).
  - apply nodup_store. assumption.
  - intros id ks Hin. apply in_store in Hin as [[-> ->] | Hin];
      [| apply Hb; assumption].
    split; [intros Hnil; rewrite Hnil in Hne; contradiction |].
    intros k' Hk'. apply Hk. apply (in_delete _ _ _ Hk').
Qed.

(** X5: a store is kept well filed: no identifier twice, no empty bucket,
    every key in the bucket of its identifier or of the empty name.  This
    holds of a new store and is kept by [remove], and by [add] and
    [generate] however they end, unless they end by spoiling [keysets]. *)
Theorem stores_stay_well_filed s next :
  (forall global, KeyStore.well_filed (fst (KeyStore.createKeyStore global next)))
  /\ (KeyStore.well_filed s ->
      (forall jwk,
         let '(s', _, c) := KeyStore.add s next jwk in
         match c with
         | Spoils name _ => KeyStore.stray s name = true
         | _ => KeyStore.well_filed s'
         end)
      /\ (forall kty size props,
            let '(s', _, c) := KeyStore.generate s next kty size props in
            match c with
            | Spoils name _ => KeyStore.stray s name = true
            | _ => KeyStore.well_filed s'
            end)
      /\ (forall jwk, KeyStore.well_filed (KeyStore.remove s jwk))).
Proof.
  assert (Hstray : forall name, inherited name = true ->
            Obj.lookup (keysets s) name = None -> KeyStore.stray s name = true).
  { intros name Hi Hl. unfold KeyStore.stray. rewrite Hl, Hi. reflexivity. }
  split.
  - intros global. split; simpl; [apply NoDup_nil_2 | intros id keys []].
  - intros Hwf. split; [| split].
    + intros jwk. destruct (KeyStore.add s next jwk) as [[s' next'] c] eqn:Hadd.
      pose proof (add_outcome _ _ _ _ _ _ Hadd) as Hout.
      destruct c; subst; try assumption.
      * destruct Hout as [-> _]. apply well_filed_file. assumption.
      * destruct (add_spoils _ _ _ _ _ _ _ Hadd) as (_ & Hi & Hl).
        apply Hstray; assumption.
    + intros kty size props.
      destruct (KeyStore.generate s next kty size props) as [[s' next'] c] eqn:Hg.
      pose proof (generate_outcome _ _ _ _ _ _ _ _ Hg) as Hout.
      destruct c; subst; try assumption.
      * destruct Hout as [-> _]. apply well_filed_file. assumption.
      * destruct (generate_spoils _ _ _ _ _ _ _ _ _ Hg) as (_ & Hi & Hl).
        apply Hstray; assumption.
    + intros jwk. apply well_filed_remove. assumption.
Qed.

(** ** The JSON form of a store *)

Lemma buckets_of_names s :
  NoDup (map fst (keysets s)) ->
  map (KeyStore.bucket s) (map fst (keysets s)) = map snd (keysets s).
Proof.
  intros Hnd.
  transitivity (map (default []) (map (Obj.lookup (keysets s))
                                    (map fst (keysets s)))).
  - rewrite (map_map (Obj.lookup (keysets s))). reflexivity.
  - rewrite (lookups_of_names _ Hnd), map_map.
    etransitivity; [| apply map_id]. apply map_ext. reflexivity.
Qed.

(** C9: [toJSON(isPrivate)] gives the object whose [keys] are the JSON
    forms of the keys in the store's own buckets, bucket after bucket in
    the order of [Object.keys]: every key that the store holds gives one
    form and there is no other, and where no identifier is an array index
    the forms stand in the order in which the buckets were created and the
    keys filed.  The parent has no part in it: under any other parent, or
    none, the result is the same. *)
Theorem toJSON_own_keys_only s isPrivate :
  NoDup (map fst (keysets s)) ->
  exists forms,
    KeyStore.toJSON s isPrivate = DObj [("keys", DArr forms)]
    /\ forms
       = flat_map
           (fun id => map (fun k : Key => key_toJSON k isPrivate)
                        (KeyStore.bucket s id))
           (Obj.keys (keysets s))
    /\ forms
       ≡ₚ map (fun k : Key => key_toJSON k isPrivate) (KeyStore.stored s)
    /\ ((forall name, In name (map fst (keysets s)) ->
                      Obj.is_index name = false) ->
        forms = map (fun k : Key => key_toJSON k isPrivate) (KeyStore.stored s))
    /\ (forall q,
          KeyStore.toJSON (KeyStore.with_parent s q) isPrivate
          = DObj [("keys", DArr forms)]).
Proof.
  intros Hnd. eexists. split; [reflexivity |]. split; [reflexivity |].
  rewrite <- map_over_flat_map.
  change (flat_map (KeyStore.bucket s) (Obj.keys (keysets s)))
    with (KeyStore.own_keys s).
  split; [| split].
  - rewrite (own_keys_stored s Hnd). reflexivity.
  - intros Hno. f_equal. unfold KeyStore.own_keys, KeyStore.stored.
    rewrite (keys_creation_order _ Hno), flat_map_concat_map.
    rewrite (buckets_of_names s Hnd). reflexivity.
  - intros q. rewrite toJSON_keys. reflexivity.
Qed.

End StoreInvariants.

(** ** Identity of keys, and [remove] *)

Section RemoveProperties.
Context {host : Host}.
Implicit Types (s : JWKStore) (key k : Key) (next : nat).

Lemma bucket_in_stored s id k :
  In k (KeyStore.bucket s id) -> In k (KeyStore.stored s).
Proof.
  unfold KeyStore.bucket, KeyStore.stored.
  destruct (Obj.lookup (keysets s) id) as [keys|] eqn:Hl; [| intros []].
  intros Hk. apply lookup_some_in in Hl. apply in_concat.
  exists keys. split; [| assumption].
  apply (in_map snd) in Hl. exact Hl.
Qed.

Lemma remove_entry_sublist (o : list (string * list Key)) name :
  concat (map snd (Obj.remove o name)) `sublist_of` concat (map snd o).
Proof.
  induction o as [|[n x] o IH]; simpl; [reflexivity |].
  destruct (String.eqb_spec n name); simpl.
  - apply sublist_inserts_l. reflexivity.
  - apply sublist_app; [reflexivity | exact IH].
Qed.

Lemma store_entry_sublist (o : list (string * list Key)) name keys keys' :
  Obj.lookup o name = Some keys ->
  keys' `sublist_of` keys ->
  concat (map snd (Obj.store o name keys')) `sublist_of` concat (map snd o).
Proof.
  intros Hl Hsub. induction o as [|[n x] o IH]; simpl in *; [discriminate |].
  destruct (String.eqb_spec n name); simpl.
  - injection Hl as ->. apply sublist_app; [exact Hsub | reflexivity].
  - apply sublist_app; [reflexivity | apply IH; assumption].
Qed.

(** What [remove] leaves are keys of the store, in their order. *)
Lemma stored_remove_sublist s jwk :
  KeyStore.stored (KeyStore.remove s jwk) `sublist_of` KeyStore.stored s.
Proof.
  unfold KeyStore.remove, KeyStore.stored.
  destruct jwk as [k|]; [| reflexivity].
  destruct (Obj.lookup (keysets s) _) as [keys|] eqn:Hl; [| reflexivity].
  destruct (KeyStore.indexOf keys k) as [pos|]; [| reflexivity].
  destruct (_ =? _)%nat; simpl.
  - apply remove_entry_sublist.
  - apply (store_entry_sublist _ _ keys); [assumption | apply sublist_delete].
Qed.

Lemma older_file s next k :
  KeyStore.older s next -> key_ref k = next ->
  KeyStore.older (KeyStore.file s k) (S next).
Proof.
  intros Ho Hk x Hx. apply list_elem_of_In in Hx.
  rewrite stored_file in Hx. apply list_elem_of_In in Hx.
  apply in_app_or in Hx as [Hx | [<- | []]]; [| lia].
  specialize (Ho x Hx). lia.
Qed.

Lemma distinct_file s next k :
  KeyStore.older s next -> KeyStore.distinct s -> key_ref k = next ->
  KeyStore.distinct (KeyStore.file s k).
Proof.
  intros Ho Hd Hk. unfold KeyStore.distinct.
  change (NoDup (key_ref <$> KeyStore.stored (KeyStore.file s k))).
  rewrite stored_file, fmap_app. apply NoDup_app. split; [exact Hd |].
  split; [| apply NoDup_singleton].
  intros r Hr Hin. apply list_elem_of_singleton in Hin. subst r.
  apply list_elem_of_fmap in Hr as [x [Hx Hin]].
  apply list_elem_of_In in Hin. specialize (Ho x Hin). simpl in Hx. lia.
Qed.

Lemma add_counter s next jwk s' next' c :
  KeyStore.add s next jwk = (s', next', c) ->
  next' = match c with Resolves _ => S next | _ => next end.
Proof.
  unfold KeyStore.add.
  repeat match goal with
         | |- context [match ?x with _ => _ end] => destruct x
         end; intros [= <- <- <-]; reflexivity.
Qed.

Lemma generate_counter s next kty size props s' next' c :
  KeyStore.generate s next kty size props = (s', next', c) ->
  next' = match c with Resolves _ => S next | _ => next end.
Proof.
  unfold KeyStore.generate.
  destruct (Registry.get (registry s) kty) as [keytype |];
    [| destruct (Registry.foreign _ _); intros [= <- <- <-]; reflexivity].
  destruct (KeyStore.with_kty props kty) as [fields |];
    [| intros [= <- <- <-]; reflexivity].
  destruct (fac_generate keytype size) as [e | e | jwk | name e];
    try (intros [= <- <- <-]; reflexivity).
  destruct (KeyStore.add s next _) as [[s1 next1] c1] eqn:Hadd.
  apply add_counter in Hadd.
  destruct c1; intros [= <- <- <-]; assumption.
Qed.

(** X6: keys stay distinct objects.  In a store whose keys were all made
    before [next] and are pairwise distinct, [add] and [generate] keep both
    facts for the next free identity, the key they make is none of the
    keys that were there, and [remove] keeps both facts too. *)
Theorem keys_stay_distinct s next :
  KeyStore.older s next -> KeyStore.distinct s ->
  (forall jwk,
     let '(s', next', c) := KeyStore.add s next jwk in
     KeyStore.older s' next' /\ KeyStore.distinct s'
     /\ match c with
        | Resolves key =>
            forall k, In k (KeyStore.stored s) -> same_key k key = false
        | _ => next' = next
        end)
  /\ (forall kty size props,
        let '(s', next', c) := KeyStore.generate s next kty size props in
        KeyStore.older s' next' /\ KeyStore.distinct s'
        /\ match c with
           | Resolves key =>
               forall k, In k (KeyStore.stored s) -> same_key k key = false
           | _ => True
           end)
  /\ (forall jwk,
        KeyStore.older (KeyStore.remove s jwk) next
        /\ KeyStore.distinct (KeyStore.remove s jwk)).
Proof.
  intros Ho Hd.
  assert (Hnew : forall key, key_ref key = next ->
            forall k, In k (KeyStore.stored s) -> same_key k key = false).
  { intros key Hk k Hin. apply Nat.eqb_neq. specialize (Ho k Hin). lia. }
  assert (Hup : forall next', (next <= next')%nat -> KeyStore.older s next').
  { intros next' Hle k Hin. specialize (Ho k Hin). lia. }
  split; [| split].
  - intros jwk. destruct (KeyStore.add s next jwk) as [[s' next'] c] eqn:Hadd.
    pose proof (add_outcome _ _ _ _ _ _ Hadd) as Hout.
    pose proof (add_counter _ _ _ _ _ _ Hadd) as Hn.
    destruct c; subst; try (split; [assumption | split; [assumption | reflexivity]]).
    destruct Hout as [-> Href]. split; [apply older_file; assumption |].
    split; [apply (distinct_file s next); assumption | apply Hnew; assumption].
  - intros kty size props.
    destruct (KeyStore.generate s next kty size props) as [[s' next'] c] eqn:Hg.
    pose proof (generate_outcome _ _ _ _ _ _ _ _ Hg) as Hout.
    pose proof (generate_counter _ _ _ _ _ _ _ _ Hg) as Hn.
    destruct c; subst; try (split; [assumption | split; [assumption | exact I]]).
    destruct Hout as [-> Href]. split; [apply older_file; assumption |].
    split; [apply (distinct_file s next); assumption | apply Hnew; assumption].
  - intros jwk. pose proof (stored_remove_sublist s jwk) as Hsub. split.
    + intros k Hin. apply Ho. apply list_elem_of_In.
      apply list_elem_of_In in Hin. apply (elem_of_sublist _ _ _ Hin Hsub).
    + unfold KeyStore.distinct.
      change (NoDup (key_ref <$> KeyStore.stored (KeyStore.remove s jwk))).
      eapply sublist_NoDup; [exact Hd |]. apply fmap_sublist. exact Hsub.
Qed.

Lemma indexOf_none (keys : list Key) k :
  KeyStore.indexOf keys k = None <->
  forall x, In x keys -> same_key x k = false.
Proof.
  induction keys as [|y keys IH]; simpl.
  - split; [intros _ x [] | reflexivity].
  - destruct (same_key y k) eqn:Hy.
    + split; [discriminate |]. intros Hall.
      rewrite (Hall y (or_introl eq_refl)) in Hy. discriminate.
    + destruct (KeyStore.indexOf keys k) as [pos|]; simpl.
      * split; [discriminate |]. intros Hall.
        pose proof (proj2 IH (fun x Hx => Hall x (or_intror Hx))).
        discriminate.
      * split; [| reflexivity]. intros _ x [<- | Hx]; [assumption |].
        apply (proj1 IH eq_refl). assumption.
Qed.

Lemma indexOf_some (keys : list Key) k pos :
  KeyStore.indexOf keys k = Some pos ->
  (exists x, keys !! pos = Some x /\ same_key x k = true)
  /\ forall j y, (j < pos)%nat -> keys !! j = Some y -> same_key y k = false.
Proof.
  revert pos. induction keys as [|y keys IH]; simpl; [discriminate |].
  intros pos. destruct (same_key y k) eqn:Hy.
  - intros [= <-]. split; [exists y; split; [reflexivity | assumption] |].
    intros j z Hj. lia.
  - destruct (KeyStore.indexOf keys k) as [p|]; simpl; [| discriminate].
    intros [= <-]. destruct (IH p eq_refl) as [Hat Hbefore]. split.
    + exact Hat.
    + intros [|j] z Hj Hz; simpl in Hz.
      * injection Hz as <-. assumption.
      * apply (Hbefore j z); [lia | assumption].
Qed.

Lemma indexOf_last (keys : list Key) k :
  (forall x, In x keys -> same_key x k = false) ->
  KeyStore.indexOf (keys ++ [k]) k = Some (length keys).
Proof.
  induction keys as [|y keys IH]; simpl; intros Hall.
  - unfold same_key. rewrite Nat.eqb_refl. reflexivity.
  - rewrite (Hall y (or_introl eq_refl)).
    rewrite IH; [reflexivity |]. intros x Hx. apply Hall. right. assumption.
Qed.

Lemma delete_last {A} (l : list A) (x : A) : delete (length l) (l ++ [x]) = l.
Proof. induction l as [|y l IH]; simpl; [reflexivity | rewrite IH; reflexivity]. Qed.

(** X7: [remove(k)] for a key with an identifier, in a store that has a
    bucket for that identifier with the object [k] in it, does not throw
    and takes out of that bucket the first entry that is the object [k],
    and nothing else: no entry before it is [k], the entries left keep
    their order, every other bucket is as before, and the identifier stays
    among the names [Object.keys] gives exactly when its bucket is not
    left empty. *)
Theorem remove_takes_first_identical s k id keys :
  NoDup (map fst (keysets s)) ->
  key_kid k = Some id ->
  Obj.lookup (keysets s) id = Some keys ->
  (exists x, In x keys /\ same_key x k = true) ->
  exists pos x,
    keys !! pos = Some x /\ same_key x k = true
    /\ (forall j y, (j < pos)%nat -> keys !! j = Some y -> same_key y k = false)
    /\ KeyStore.remove_throws s (Some k) = false
    /\ (forall id',
          KeyStore.bucket (KeyStore.remove s (Some k)) id'
          = if id =? id' then delete pos keys else KeyStore.bucket s id')
    /\ (forall id',
          In id' (Obj.keys (keysets (KeyStore.remove s (Some k)))) <->
          In id' (Obj.keys (keysets s)) /\ (id' = id -> delete pos keys <> [])).
Proof.
  intros Hnd Hk Hl [x0 [Hin0 Hs0]].
  destruct (KeyStore.indexOf keys k) as [pos|] eqn:Hi;
    [| rewrite (proj1 (indexOf_none keys k) Hi x0 Hin0) in Hs0; discriminate].
  destruct (indexOf_some keys k pos Hi) as [[x [Hx Hsame]] Hfirst].
  exists pos, x.
  split; [exact Hx |]. split; [exact Hsame |]. split; [exact Hfirst |].
  split.
  { unfold KeyStore.remove_throws, KeyStore.stray. rewrite Hk. simpl.
    rewrite Hl. reflexivity. }
  unfold KeyStore.remove. rewrite Hk. simpl. rewrite Hl, Hi.
  destruct (Nat.eqb_spec (length (delete pos keys)) 0) as [He | Hne].
  - apply nil_length_inv in He. split.
    + intros id'. unfold KeyStore.bucket. simpl.
      rewrite (lookup_remove _ _ _ Hnd).
      destruct (id =? id'); [rewrite He |]; reflexivity.
    + intros id'. simpl. rewrite !keys_in. split.
      * intros Hin. split; [apply (names_remove_sub _ _ _ Hin) |].
        intros ->. exfalso. apply (proj1 (lookup_none_names _ _)) in Hin;
          [assumption |].
        rewrite (lookup_remove _ _ _ Hnd), String.eqb_refl. reflexivity.
      * intros [Hin Hkeep].
        destruct (String.eqb_spec id' id) as [-> | Hdiff];
          [exfalso; apply (Hkeep eq_refl); assumption |].
        destruct (in_dec string_dec id' (map fst (Obj.remove (keysets s) id)))
          as [Hyes | Hno]; [assumption |].
        exfalso. apply lookup_none_names in Hno.
        rewrite (lookup_remove _ _ _ Hnd) in Hno.
        destruct (String.eqb_spec id id'); [congruence |].
        apply lookup_none_names in Hno. contradiction.
  - split.
    + intros id'. unfold KeyStore.bucket. simpl. rewrite lookup_store.
      destruct (id =? id'); reflexivity.
    + intros id'. simpl. rewrite !keys_in, names_store, Hl. split.
      * intros Hin. split; [assumption |]. intros _ Hnil.
        rewrite Hnil in Hne. contradiction.
      * intros [Hin _]. assumption.
Qed.

(** X8: [remove] leaves the store as it is when it is given no key, and
    when no key in the bucket it looks into, the one named by the key's
    identifier, is the object it is given. *)
Theorem remove_unknown_key_changes_nothing s :
  KeyStore.remove s None = s
  /\ forall k,
       (forall x, In x (KeyStore.bucket s (KeyStore.prop_name (key_kid k))) ->
                  same_key x k = false) ->
       KeyStore.remove s (Some k) = s.
Proof.
  split; [reflexivity |].
  intros k Hall. unfold KeyStore.remove. unfold KeyStore.bucket in Hall.
  destruct (Obj.lookup (keysets s) _) as [keys|]; [| reflexivity].
  simpl in Hall. apply indexOf_none in Hall. rewrite Hall. reflexivity.
Qed.

(** X9: [remove] undoes [add].  In a well filed store whose keys are older
    than [next], when [add] is fulfilled with a key that has an
    identifier, removing that key gives the store back as it was before
    the [add]. *)
Theorem remove_undoes_add s next jwk s' next' key :
  KeyStore.well_filed s ->
  KeyStore.older s next ->
  KeyStore.add s next jwk = (s', next', Resolves key) ->
  key_kid key <> None ->
  KeyStore.remove s' (Some key) = s.
Proof.
  intros [Hnd Hb] Ho Hadd Hid.
  apply add_outcome in Hadd as [-> Href].
  destruct (key_kid key) as [id|] eqn:Hk; [| contradiction].
  unfold KeyStore.remove, KeyStore.file. rewrite Hk. simpl.
  rewrite lookup_store, String.eqb_refl.
  set (b := default [] (Obj.lookup (keysets s) id)).
  assert (Hfresh : forall x, In x b -> same_key x key = false).
  { intros x Hx. apply Nat.eqb_neq.
    assert (Hin : In x (KeyStore.stored s)) by (apply (bucket_in_stored s id); exact Hx).
    specialize (Ho x Hin). lia. }
  rewrite (indexOf_last b key Hfresh), delete_last.
  destruct (Obj.lookup (keysets s) id) as [keys|] eqn:Hl; subst b; simpl.
  - destruct (Hb id keys (lookup_some_in _ _ _ Hl)) as [Hne _].
    destruct keys as [|x keys]; [contradiction |]. simpl.
    change (KeyStore.with_keysets s
              (Obj.store (Obj.store (keysets s) id ((x :: keys) ++ [key]))
                 id (x :: keys)) = s).
    rewrite store_store, (store_same _ _ _ Hl). apply with_keysets_same.
  - change (KeyStore.with_keysets s
              (Obj.remove (Obj.store (keysets s) id ([] ++ [key])) id) = s).
    rewrite (remove_store_new _ _ _ Hl). apply with_keysets_same.
Qed.

End RemoveProperties.

(** ** More on the queries *)

Section QueryBehaviour.
Context {host : Host}.
Implicit Types (s p : JWKStore) (H : heap) (key k : Key).

Lemma strict_eq_str v id : strict_eq v (VStr id) = true <-> v = VStr id.
Proof.
  destruct v; simpl; try (split; discriminate).
  split.
  - intros He. apply String.eqb_eq in He. congruence.
  - intros [= ->]. apply String.eqb_refl.
Qed.

Lemma filter_sublist {A} (f : A -> bool) (l : list A) :
  List.filter f l `sublist_of` l.
Proof.
  induction l as [|x l IH]; simpl; [constructor |].
  destruct (f x); [apply sublist_skip | apply sublist_cons]; exact IH.
Qed.

Lemma own_matches_sublist s H props :
  KeyStore.own_matches s H props `sublist_of` KeyStore.own_keys s.
Proof.
  unfold KeyStore.own_matches, KeyStore.own_keys.
  induction (Obj.keys (keysets s)) as [|id ids IH]; simpl; [constructor |].
  apply sublist_app; [| exact IH].
  destruct (_ && _); [apply sublist_nil_l | apply filter_sublist].
Qed.

Lemma own_matches_match s H props k :
  In k (KeyStore.own_matches s H props) -> KeyStore.matches H props k = true.
Proof.
  unfold KeyStore.own_matches. rewrite in_flat_map. intros [id [_ Hk]].
  destruct (_ && _); [destruct Hk |]. apply filter_In in Hk. tauto.
Qed.

Lemma matches_unfiltered H props k :
  (forall name, In name ["kty"; "use"; "alg"; "kid"] -> truthy (get_prop H props name) = false) ->
  KeyStore.matches H props k = true.
Proof.
  intros He. unfold KeyStore.matches. cbv zeta.
  rewrite !He by (simpl; tauto). reflexivity.
Qed.

Lemma own_matches_unfiltered s H props :
  (forall name, In name ["kty"; "use"; "alg"; "kid"] -> truthy (get_prop H props name) = false) ->
  KeyStore.own_matches s H props = KeyStore.own_keys s.
Proof.
  intros He. unfold KeyStore.own_matches, KeyStore.own_keys.
  apply flat_map_ext. intros id. rewrite He by (simpl; tauto). simpl.
  apply filter_all. intros k. apply matches_unfiltered. assumption.
Qed.

Lemma all_unfiltered_chain s : forall H props,
  truthy props = true ->
  (forall name, In name ["kty"; "use"; "alg"; "kid"] -> truthy (get_prop H props name) = false) ->
  KeyStore.all s H props VUndef = KeyStore.chain_keys s.
Proof.
  induction s as [s Hroot | s p Hp IH] using store_chain_ind;
    intros H props Ht He; rewrite all_unfold, Ht; simpl;
    rewrite (own_matches_unfiltered s H props He).
  - destruct s as [r reg ks par]. simpl in *. subst par. simpl.
    rewrite app_nil_r. reflexivity.
  - rewrite Hp, (IH H props Ht He).
    destruct s as [r reg ks par]. simpl in *. subst par. reflexivity.
Qed.

(** X10: without a filter, or with a filter whose properties [kty], [use],
    [alg] and [kid] are all missing or falsy, whatever else it holds,
    [all] gives every key of the store and, unless the search is local,
    after them every key of its parent, of the parent's parent, and so
    on. *)
Theorem all_without_filter_lists_the_chain s H props local :
  truthy props = false
  \/ (forall name, In name ["kty"; "use"; "alg"; "kid"] ->
                   truthy (get_prop H props name) = false) ->
  KeyStore.all s H props local
  = if truthy local then KeyStore.own_keys s else KeyStore.chain_keys s.
Proof.
  intros Hprops.
  assert (Hgen : forall H' props', truthy props' = true ->
            (forall name, In name ["kty"; "use"; "alg"; "kid"] ->
                          truthy (get_prop H' props' name) = false) ->
            KeyStore.all s H' props' local
            = if truthy local then KeyStore.own_keys s
              else KeyStore.chain_keys s).
  { intros H' props' Ht He. rewrite all_unfold, Ht. simpl.
    rewrite (own_matches_unfiltered s H' props' He).
    destruct (truthy local) eqn:Hl; simpl.
    - destruct (parent s); reflexivity.
    - destruct s as [r reg ks [p|]]; simpl.
      + rewrite (all_unfiltered_chain p H' props' Ht He). reflexivity.
      + rewrite app_nil_r. reflexivity. }
  destruct (truthy props) eqn:Ht.
  - destruct Hprops as [Hf | He]; [discriminate |]. apply Hgen; assumption.
  - rewrite (all_default s H props local Ht).
    apply Hgen; [reflexivity |].
    intros name _. rewrite alloc_empty. reflexivity.
Qed.

Lemma all_sublist_chain s : forall H props local,
  KeyStore.all s H props local `sublist_of` KeyStore.chain_keys s.
Proof.
  induction s as [s Hroot | s p Hp IH] using store_chain_ind;
    intros H props local; rewrite all_unfold;
    destruct (if truthy props then (H, props) else alloc H) as [H' props'];
    simpl; destruct s as [r reg ks par]; simpl in *; subst par; simpl.
  - rewrite app_nil_r. apply own_matches_sublist.
  - destruct (negb (truthy local)).
    + apply sublist_app; [apply own_matches_sublist | apply IH].
    + apply sublist_inserts_r. apply own_matches_sublist.
Qed.

Lemma all_match s : forall H props local k,
  truthy props = true ->
  In k (KeyStore.all s H props local) -> KeyStore.matches H props k = true.
Proof.
  induction s as [s Hroot | s p Hp IH] using store_chain_ind;
    intros H props local k Ht; rewrite all_unfold, Ht; simpl.
  - rewrite Hroot. apply own_matches_match.
  - rewrite Hp. destruct (negb (truthy local)); [| apply own_matches_match].
    intros Hin. apply in_app_or in Hin as [Hin | Hin].
    + apply (own_matches_match _ _ _ _ Hin).
    + apply (IH H props VUndef k Ht Hin).
Qed.

(** X11: what [all] returns are keys of the store and of its ancestors, in
    the order in which these hold them, nearest store first; only keys of
    the store itself when the search is local; and each of them passes
    [matches] for the filter. *)
Theorem all_selects_in_order s H props local :
  KeyStore.all s H props local `sublist_of` KeyStore.chain_keys s
  /\ (truthy local = true ->
      KeyStore.all s H props local `sublist_of` KeyStore.own_keys s)
  /\ (truthy props = true ->
      forall k, In k (KeyStore.all s H props local) ->
                KeyStore.matches H props k = true).
Proof.
  split; [apply all_sublist_chain |]. split.
  - intros Hl. rewrite all_unfold.
    destruct (if truthy props then (H, props) else alloc H) as [H' props'].
    simpl. rewrite Hl. simpl.
    destruct (parent s); apply own_matches_sublist.
  - intros Ht k. apply all_match. assumption.
Qed.

(** X12: in a well filed store, a local search returns exactly the keys of
    the store that pass [matches] and, when the filter has an identifier,
    whose own identifier is that one, a key without identifier counting as
    one with the empty identifier. *)
Theorem all_selects_by_kid s H props k :
  KeyStore.well_filed s ->
  truthy props = true ->
  In k (KeyStore.all s H props (VBool true)) <->
  In k (KeyStore.own_keys s)
  /\ KeyStore.matches H props k = true
  /\ (truthy (get_prop H props "kid") = true ->
      get_prop H props "kid" = VStr (default "" (key_kid k))).
Proof.
  intros [Hnd Hb] Ht. rewrite (all_local s H props Ht).
  assert (Hfiled : forall id, In k (KeyStore.bucket s id) ->
            default "" (key_kid k) = id).
  { intros id Hin. unfold KeyStore.bucket in Hin.
    destruct (Obj.lookup (keysets s) id) as [keys|] eqn:Hl; [| destruct Hin].
    apply lookup_some_in in Hl. apply (Hb id keys Hl). exact Hin. }
  unfold KeyStore.own_matches, KeyStore.own_keys. rewrite !in_flat_map. split.
  - intros [id [Hid Hk]].
    destruct (truthy (get_prop H props "kid")) eqn:Hkid; simpl in Hk.
    + destruct (strict_eq _ _) eqn:He; simpl in Hk; [| destruct Hk].
      apply filter_In in Hk as [Hin Hm].
      split; [exists id; split; assumption |]. split; [assumption |].
      intros _. rewrite (Hfiled id Hin). apply strict_eq_str. assumption.
    + apply filter_In in Hk as [Hin Hm].
      split; [exists id; split; assumption |]. split; [assumption |].
      discriminate.
  - intros [[id [Hid Hin]] [Hm Hkid]]. exists id. split; [assumption |].
    destruct (truthy (get_prop H props "kid")) eqn:Ht'; simpl.
    + rewrite (Hkid eq_refl), (Hfiled id Hin).
      rewrite (proj2 (strict_eq_str (VStr id) id) eq_refl). simpl.
      apply filter_In. split; assumption.
    + apply filter_In. split; assumption.
Qed.

End QueryBehaviour.

(** ** Looking a key up by its identifier *)

Section LookupById.
Context {host : Host}.
Implicit Types (s p : JWKStore) (H : heap) (key k : Key).

Lemma flat_map_pick {A} (f : string -> list A) (a : string) (l : list string) :
  NoDup l ->
  flat_map (fun x => if negb (a =? x) then [] else f x) l
  = if bool_decide (a ∈ l) then f a else [].
Proof.
  induction l as [|x l IH]; intros Hnd; [reflexivity |].
  apply NoDup_cons in Hnd as [Hx Hnd]. simpl. rewrite (IH Hnd).
  destruct (String.eqb_spec a x) as [E | Hne]; simpl.
  - subst x. rewrite (bool_decide_eq_false_2 _ Hx), app_nil_r.
    rewrite bool_decide_eq_true_2; [reflexivity | left].
  - destruct (bool_decide (a ∈ l)) eqn:Hin.
    + apply bool_decide_eq_true_1 in Hin.
      rewrite bool_decide_eq_true_2; [reflexivity | right; assumption].
    + apply bool_decide_eq_false_1 in Hin.
      rewrite bool_decide_eq_false_2; [reflexivity |].
      intros Hin'. apply elem_of_cons in Hin' as [? | ?]; [congruence | contradiction].
Qed.

Lemma nodup_keys {V} (o : list (string * V)) :
  NoDup (map fst o) -> NoDup (Obj.keys o).
Proof. intros Hnd. rewrite (keys_perm o). exact Hnd. Qed.

(** A filter that has an identifier and nothing else selects the bucket of
    that identifier. *)
Lemma own_matches_kid_only s H props id :
  NoDup (map fst (keysets s)) ->
  id <> "" ->
  get_prop H props "kid" = VStr id ->
  (forall name, name <> "kid" -> get_prop H props name = VUndef) ->
  KeyStore.own_matches s H props = KeyStore.bucket s id.
Proof.
  intros Hnd Hne Hkid Hother. unfold KeyStore.own_matches. rewrite Hkid.
  assert (Hm : forall k, KeyStore.matches H props k = true).
  { intros k. unfold KeyStore.matches.
    rewrite !Hother by discriminate. reflexivity. }
  transitivity
    (flat_map (fun id' => if negb (id =? id') then [] else KeyStore.bucket s id')
       (Obj.keys (keysets s))).
  - apply flat_map_ext. intros id'. simpl.
    destruct (String.eqb_spec id ""); [contradiction |]. simpl.
    destruct (negb (id =? id')); [reflexivity |].
    apply filter_all. exact Hm.
  - rewrite (flat_map_pick _ _ _ (nodup_keys _ Hnd)).
    destruct (bool_decide (id ∈ Obj.keys (keysets s))) eqn:Hin; [reflexivity |].
    apply bool_decide_eq_false_1 in Hin. rewrite list_elem_of_In, keys_in in Hin.
    apply lookup_none_names in Hin. unfold KeyStore.bucket. rewrite Hin.
    reflexivity.
Qed.

Lemma get_id_candidates s H id :
  NoDup (map fst (keysets s)) ->
  id <> "" ->
  let l := fresh (dom H) in
  let H2 := <[l := <["kid" := VStr id]> (default ∅ (<[l := ∅]> H !! l))]>
              (<[l := ∅]> H) in
  KeyStore.all s H2 (VRef l) (VBool true) = KeyStore.bucket s id.
Proof.
  intros Hnd Hne l H2. rewrite all_local by reflexivity.
  apply own_matches_kid_only; [assumption | assumption | |].
  - unfold get_prop, H2. rewrite lookup_insert_eq. simpl.
    rewrite lookup_insert_eq. reflexivity.
  - intros name Hname. unfold get_prop, H2. rewrite !lookup_insert_eq. simpl.
    rewrite lookup_insert_ne by congruence. rewrite lookup_empty. reflexivity.
Qed.

Lemma get_by_id_first s H id local k rest :
  NoDup (map fst (keysets s)) ->
  id <> "" ->
  KeyStore.bucket s id = k :: rest ->
  snd (KeyStore.get s H (VStr id) VUndef local) = Return (Some k).
Proof.
  intros Hnd Hne Hb. rewrite get_unfold. simpl.
  destruct (String.eqb_spec id ""); [contradiction |]. simpl.
  rewrite (get_id_candidates s H id Hnd Hne), Hb.
  destruct (parent s); reflexivity.
Qed.

Lemma all_local_no_filter s H :
  KeyStore.all s H VUndef (VBool true) = KeyStore.own_keys s.
Proof.
  rewrite (all_default s H VUndef (VBool true) eq_refl).
  rewrite all_local by reflexivity.
  apply own_matches_no_filter. apply alloc_empty.
Qed.

(** X13: [get(kid)] with a non-empty identifier and no filter returns the
    first key of the bucket of that identifier, the one added first,
    whether or not the store has a parent.  When there is no such bucket
    it returns null, without throwing, if the store has no parent or the
    search is local. *)
Theorem get_by_id_returns_first_of_bucket s H id local :
  NoDup (map fst (keysets s)) ->
  id <> "" ->
  (forall k rest,
     KeyStore.bucket s id = k :: rest ->
     snd (KeyStore.get s H (VStr id) VUndef local) = Return (Some k))
  /\ (KeyStore.bucket s id = [] ->
      parent s = None \/ truthy local = true ->
      snd (KeyStore.get s H (VStr id) VUndef local) = Return None).
Proof.
  intros Hnd Hne. split.
  - intros k rest Hb. apply (get_by_id_first s H id local k rest); assumption.
  - intros Hb Hwhere. rewrite get_unfold. simpl.
    destruct (String.eqb_spec id ""); [contradiction |]. simpl.
    rewrite (get_id_candidates s H id Hnd Hne), Hb.
    destruct (parent s) as [p|]; [| reflexivity].
    destruct Hwhere as [Hp | Hl]; [discriminate |]. rewrite Hl. reflexivity.
Qed.

(** X14: a key that [add] has filed is found by its identifier.  After
    [add] is fulfilled in a store that has no identifier twice, with a key
    whose identifier is not empty, [get] with that identifier returns the
    key that was first in the bucket, which is the new key when the bucket
    is new. *)
Theorem get_finds_added_key s next jwk s' next' key id H local :
  NoDup (map fst (keysets s)) ->
  KeyStore.add s next jwk = (s', next', Resolves key) ->
  key_kid key = Some id ->
  id <> "" ->
  snd (KeyStore.get s' H (VStr id) VUndef local)
  = Return (Some (hd key (KeyStore.bucket s id))).
Proof.
  intros Hnd Hadd Hk Hne. apply add_outcome in Hadd as [-> _].
  assert (Hnd' : NoDup (map fst (keysets (KeyStore.file s key))))
    by (apply nodup_store; assumption).
  pose proof (fun k rest =>
                get_by_id_first (KeyStore.file s key) H id local k rest
                  Hnd' Hne) as Hfirst.
  pose proof (bucket_file s key id) as Hb. rewrite Hk in Hb. simpl in Hb.
  rewrite String.eqb_refl in Hb.
  destruct (KeyStore.bucket s id) as [|k rest]; simpl in *.
  - apply (Hfirst key []). exact Hb.
  - apply (Hfirst k (rest ++ [key])). exact Hb.
Qed.

(** X15: a fulfilled [add] shows in the listings as one more key.  In a
    store that has no identifier twice, the keys of a local [all] without
    filter afterwards are those from before and the new key, and [toJSON]
    has the JSON forms from before and that of the new key. *)
Theorem added_key_is_listed s next jwk s' next' key :
  NoDup (map fst (keysets s)) ->
  KeyStore.add s next jwk = (s', next', Resolves key) ->
  (forall H,
     KeyStore.all s' H VUndef (VBool true)
     ≡ₚ KeyStore.all s H VUndef (VBool true) ++ [key])
  /\ (forall isPrivate,
        exists before after,
          KeyStore.toJSON s isPrivate = DObj [("keys", DArr before)]
          /\ KeyStore.toJSON s' isPrivate = DObj [("keys", DArr after)]
          /\ after ≡ₚ before ++ [key_toJSON key isPrivate]).
Proof.
  intros Hnd Hadd. apply add_outcome in Hadd as [-> _].
  assert (Hnd' : NoDup (map fst (keysets (KeyStore.file s key))))
    by (apply nodup_store; assumption).
  assert (Hown : KeyStore.own_keys (KeyStore.file s key)
                 ≡ₚ KeyStore.own_keys s ++ [key]).
  { rewrite (own_keys_stored _ Hnd'), (own_keys_stored _ Hnd).
    apply stored_file. }
  split.
  - intros H. rewrite !all_local_no_filter. exact Hown.
  - intros isPrivate.
    exists (map (fun k : Key => key_toJSON k isPrivate) (KeyStore.own_keys s)),
      (map (fun k : Key => key_toJSON k isPrivate)
         (KeyStore.own_keys (KeyStore.file s key))).
    split; [apply toJSON_keys |]. split; [apply toJSON_keys |].
    rewrite Hown, map_app. reflexivity.
Qed.

(** X26: two keys added under one identifier are both kept.  After two
    fulfilled calls of [add] with keys of the same identifier, the bucket
    of that identifier ends with the two keys, in the order in which they
    were added, and they are distinct objects; when the store has no
    identifier twice and the identifier is not empty, a local [all] with a
    filter that has only this identifier returns that bucket. *)
Theorem same_id_keys_are_both_kept s next jwk1 s1 next1 k1 jwk2 s2 next2 k2 id :
  KeyStore.add s next jwk1 = (s1, next1, Resolves k1) ->
  KeyStore.add s1 next1 jwk2 = (s2, next2, Resolves k2) ->
  key_kid k1 = Some id ->
  key_kid k2 = Some id ->
  KeyStore.bucket s2 id = KeyStore.bucket s id ++ [k1; k2]
  /\ same_key k1 k2 = false
  /\ (NoDup (map fst (keysets s)) -> id <> "" ->
      forall H props,
        get_prop H props "kid" = VStr id ->
        (forall name, name <> "kid" -> get_prop H props name = VUndef) ->
        truthy props = true ->
        KeyStore.all s2 H props (VBool true) = KeyStore.bucket s id ++ [k1; k2]).
Proof.
  intros Hadd1 Hadd2 Hk1 Hk2.
  pose proof (add_counter _ _ _ _ _ _ Hadd1) as Hn1. simpl in Hn1.
  apply add_outcome in Hadd1 as [-> Href1].
  apply add_outcome in Hadd2 as [-> Href2].
  assert (Hb : KeyStore.bucket (KeyStore.file (KeyStore.file s k1) k2) id
               = KeyStore.bucket s id ++ [k1; k2]).
  { rewrite !bucket_file, Hk1, Hk2. simpl. rewrite String.eqb_refl.
    rewrite <- app_assoc. reflexivity. }
  split; [exact Hb |]. split.
  - unfold same_key. apply Nat.eqb_neq. lia.
  - intros Hnd Hne H props Hkid Hother Ht.
    rewrite all_local by assumption. rewrite <- Hb.
    apply own_matches_kid_only; try assumption.
    do 2 apply nodup_store. assumption.
Qed.

End LookupById.

(** ** The arguments of [get] *)

Section GetArguments.
Context {host : Host}.
Implicit Types (s p : JWKStore) (H : heap) (key k : Key).

Lemma alloc_frame H l :
  is_Some (H !! l) ->
  fst (alloc H) !! l = H !! l /\ snd (alloc H) <> VRef l.
Proof.
  intros Hl. apply elem_of_dom in Hl.
  assert (Hne : fresh (dom H) <> l).
  { intros <-. apply (is_fresh (dom H)). assumption. }
  unfold alloc. simpl. split; [apply lookup_insert_ne; assumption | congruence].
Qed.

Lemma set_prop_frame H v name x H' l :
  set_prop H v name x = Some H' -> v <> VRef l -> H' !! l = H !! l.
Proof.
  destruct v; simpl; try discriminate.
  intros [= <-] Hne. apply lookup_insert_ne. congruence.
Qed.

Lemma get_frame s : forall H kid props local l,
  is_Some (H !! l) -> kid <> VRef l -> props <> VRef l ->
  fst (KeyStore.get s H kid props local) !! l = H !! l.
Proof.
  induction s as [s Hroot | s p Hp IH] using store_chain_ind;
    intros H kid props local l Hl Hkid Hprops; rewrite get_unfold;
    (destruct (if typeof kid =? "boolean" then _ else _)
       as [[kid1 props1] local1] eqn:Hrec;
     assert (Hp1 : props1 <> VRef l)
       by (destruct kid; simpl in Hrec; injection Hrec as <- <- <-;
           congruence);
     destruct (if truthy props1 then _ else _) as [H1 props2] eqn:Hal;
     assert (Hal' : H1 !! l = H !! l /\ props2 <> VRef l)
       by (destruct (truthy props1); injection Hal as <- <-;
           [split; [reflexivity | assumption] | apply alloc_frame; assumption]);
     destruct Hal' as [HH1 Hp2];
     destruct (if truthy kid1 then _ else _) as [H2|] eqn:Hset;
     [| simpl; assumption];
     assert (HH2 : H2 !! l = H !! l)
       by (rewrite <- HH1; destruct (truthy kid1);
           [apply (set_prop_frame _ _ _ _ _ _ Hset Hp2)
           | injection Hset as <-; reflexivity])).
  - rewrite Hroot. destruct (KeyStore.all s H2 props2 (VBool true)); assumption.
  - rewrite Hp.
    destruct (KeyStore.all s H2 props2 (VBool true)); [| assumption].
    destruct (negb (truthy local1)) eqn:Hloc; [| assumption].
    assert (Hl1 : local1 <> VRef l) by (destruct local1; simpl in Hloc; congruence).
    assert (Hs2 : is_Some (H2 !! l)) by (rewrite HH2; assumption).
    specialize (IH H2 props2 local1 VUndef l Hs2 Hp2 Hl1).
    destruct (KeyStore.get p H2 props2 local1 VUndef) as [H3 [e | [k |]]];
      simpl in *; congruence.
Qed.

(** X16: [get] writes to no object but the filter it is given: every
    other object the caller holds is after the call, however it ends, as
    it was before. *)
Theorem get_touches_only_the_filter s H kid props local l :
  is_Some (H !! l) -> kid <> VRef l -> props <> VRef l ->
  fst (KeyStore.get s H kid props local) !! l = H !! l.
Proof. apply get_frame. Qed.

(** X17: how [get] takes its arguments apart.  With a boolean in the first
    place, that boolean is the local flag and the other arguments are not
    looked at; with an object in the first place, the object is the filter
    and the second argument the flag; and with null in the first place,
    the second argument is taken for the flag, so that a filter given
    there does not filter and, being an object, makes the search local. *)
Theorem get_reconciles_its_arguments s H props local :
  (forall b, KeyStore.get s H (VBool b) props local
             = KeyStore.get s H VUndef VUndef (VBool b))
  /\ (forall l, KeyStore.get s H (VRef l) props local
                = KeyStore.get s H VUndef (VRef l) props)
  /\ KeyStore.get s H VNull props local
     = KeyStore.get s H VUndef VUndef props
  /\ (forall l, snd (KeyStore.get s H VNull (VRef l) local)
                = Return (hd_error (KeyStore.own_keys s))).
Proof.
  split; [| split; [| split]].
  - intros b. rewrite !get_unfold. reflexivity.
  - intros l. rewrite !get_unfold. reflexivity.
  - rewrite !get_unfold. reflexivity.
  - intros l. rewrite get_unfold. simpl.
    rewrite all_local by reflexivity.
    rewrite own_matches_no_filter
      by (intros name; apply (alloc_empty H name)).
    destruct (KeyStore.own_keys s); [| reflexivity].
    destruct (parent s); reflexivity.
Qed.

(** X18: on a store without a parent, [get] throws in one case only: an
    identifier that is truthy (not a boolean, not an object) together with
    a filter that is a truthy primitive value, on which the identifier
    cannot be set.  In every other case it returns the first key of the
    local search, or null when there is none. *)
Theorem get_without_parent s H kid props local :
  parent s = None ->
  match snd (KeyStore.get s H kid props local) with
  | Throw e =>
      e = TypeError /\ truthy kid = true /\ truthy props = true
      /\ typeof kid <> "boolean" /\ typeof kid <> "object"
      /\ typeof props <> "object"
  | Return None => True
  | Return (Some k) => In k (KeyStore.own_keys s)
  end.
Proof.
  intros Hroot.
  destruct (KeyStore.get s H kid props local) as [H' r] eqn:Hget. simpl.
  destruct r as [e | [k |]]; [| apply (get_returns_own_key _ _ _ _ _ _ _ Hget) | exact I].
  revert Hget. rewrite get_unfold, Hroot.
  destruct kid as [| | b | n | id | l]; simpl;
    try (destruct (KeyStore.all s _ _ _); discriminate);
    destruct props as [| | b' | n' | id' | l']; simpl;
    try (destruct (KeyStore.all s _ _ _); discriminate);
    repeat match goal with
           | |- context [negb (?x =? ?y)%Z] => destruct (x =? y)%Z eqn:?; simpl
           | |- context [negb (?x =? ?y)] => destruct (x =? y) eqn:?; simpl
           | |- context [if ?b then _ else _] => destruct b; simpl
           end;
    try (destruct (KeyStore.all s _ _ _); discriminate);
    intros [= <- <-]; repeat split; discriminate.
Qed.

End GetArguments.

(** ** How [add], [generate] and the coercions end *)

Section Outcomes.
Context {host : Host}.
Implicit Types (s : JWKStore) (key k : Key) (next : nat).

(** X19: [add] throws, before any promise exists, in four cases only: a
    text that [JSON.parse] refuses (a SyntaxError); a value that is null
    or undefined, be it given or parsed (a TypeError on reading its type
    tag); a type tag for which [get] returns a member that the registry
    inherits, which has no [prepare] (a TypeError); and a factory whose
    [prepare] throws.  A type tag for which [get] returns undefined, a
    [prepare] that rejects and a failing Key constructor reject the
    promise instead. *)
Theorem add_throws_only_early s next jwk :
  (forall s' next' e,
     KeyStore.add s next jwk = (s', next', Throws e) ->
     (e = SyntaxError
      /\ exists text,
           jwk = KeyStore.InData (DStr text) /\ JSON_parse text = None)
     \/ (e = TypeError
         /\ exists d,
              KeyStore.normalize jwk = Return d /\ data_prop d "kty" = None)
     \/ (e = TypeError
         /\ exists d kty,
              KeyStore.normalize jwk = Return d
              /\ data_prop d "kty" = Some kty
              /\ Registry.get (registry s) kty = None
              /\ Registry.foreign (registry s) kty = true)
     \/ (exists d kty keytype,
           KeyStore.normalize jwk = Return d
           /\ data_prop d "kty" = Some kty
           /\ Registry.get (registry s) kty = Some keytype
           /\ fac_prepare keytype d = Throws e))
  /\ (forall d kty,
        KeyStore.normalize jwk = Return d ->
        data_prop d "kty" = Some kty ->
        (Registry.get (registry s) kty = None ->
         Registry.foreign (registry s) kty = false ->
         KeyStore.add s next jwk
         = (s, next, Rejects (Error "unsupported key type")))
        /\ (forall keytype,
              Registry.get (registry s) kty = Some keytype ->
              (forall e, fac_prepare keytype d = Rejects e ->
                         KeyStore.add s next jwk = (s, next, Rejects e))
              /\ (forall cfg e,
                    fac_prepare keytype d = Resolves cfg ->
                    BaseKey kty (store_ref s) d cfg = inl e ->
                    KeyStore.add s next jwk = (s, next, Rejects e)))).
Proof.
  split.
  - intros s' next' e. unfold KeyStore.add.
    destruct (KeyStore.normalize jwk) as [e0 | d] eqn:Hn.
    + intros [= <- <- <-]. left.
      destruct jwk as [k | d]; [discriminate Hn |].
      destruct d; try discriminate Hn. simpl in Hn.
      destruct (JSON_parse s0) eqn:Hp; [discriminate Hn |].
      injection Hn as <-. split; [reflexivity |].
      exists s0. split; [reflexivity | assumption].
    + destruct (data_prop d "kty") as [kty |] eqn:Hk.
      * destruct (Registry.get (registry s) kty) as [keytype |] eqn:Hg.
        -- destruct (fac_prepare keytype d) as [e1 | e1 | cfg | n1 e1] eqn:Hc;
             try discriminate.
           ++ intros [= <- <- <-]. right. right. right.
              exists d, kty, keytype. auto.
           ++ destruct (BaseKey kty (store_ref s) d cfg); [discriminate |].
              simpl. destruct (KeyStore.stray s _);
                [destruct (_ =? proto) |]; discriminate.
        -- destruct (Registry.foreign (registry s) kty) eqn:Hf; [| discriminate].
           intros [= <- <- <-]. right. right. left.
           split; [reflexivity |]. exists d, kty. auto.
      * intros [= <- <- <-]. right. left. split; [reflexivity |].
        exists d. split; [reflexivity | assumption].
  - intros d kty Hn Hk. unfold KeyStore.add. rewrite Hn, Hk. split.
    + intros -> ->. reflexivity.
    + intros keytype ->. split.
      * intros e ->. reflexivity.
      * intros cfg e -> ->. reflexivity.
Qed.

Lemma and_group (A B C D : Prop) : (A /\ B /\ C) /\ D -> A /\ B /\ C /\ D.
Proof. tauto. Qed.

(** X20: how [generate] ends.  Where [get] returns undefined for the type
    the promise is rejected with "unsupported key type".  [generate]
    throws in three cases only: [get] returns a member that the registry
    inherits, which has no [generate]; the properties given are a truthy
    value that is no object, on which the type tag cannot be set; and the
    factory's [generate] throws.  It is fulfilled only when the factory
    has given raw key data and [add] of that data, merged over the
    properties with the type tag set, is fulfilled with the same key; an
    error that this [add] throws rejects the promise. *)
Theorem generate_ends_as_factory_and_add s next kty size props s' next' c :
  KeyStore.generate s next kty size props = (s', next', c) ->
  (Registry.get (registry s) kty = None ->
   c = if Registry.foreign (registry s) kty
       then Throws TypeError
       else Rejects (Error "unsupported key type"))
  /\ (forall e, c = Throws e ->
        (e = TypeError
         /\ Registry.get (registry s) kty = None
         /\ Registry.foreign (registry s) kty = true)
        \/ (e = TypeError
            /\ truthy_data props = true
            /\ (forall fields, props <> DObj fields)
            /\ (forall elems, props <> DArr elems))
        \/ (exists keytype,
              Registry.get (registry s) kty = Some keytype
              /\ fac_generate keytype size = Throws e))
  /\ (forall key, c = Resolves key ->
        exists keytype fields raw,
          Registry.get (registry s) kty = Some keytype
          /\ KeyStore.with_kty props kty = Some fields
          /\ assoc fields "kty" = kty
          /\ fac_generate keytype size = Resolves raw
          /\ KeyStore.add s next
               (KeyStore.InData
                  (merge (DObj fields) raw (DObj [("kty", kty)])))
             = (s', next', Resolves key))
  /\ (forall keytype fields raw s1 next1 e,
        Registry.get (registry s) kty = Some keytype ->
        KeyStore.with_kty props kty = Some fields ->
        fac_generate keytype size = Resolves raw ->
        KeyStore.add s next
          (KeyStore.InData (merge (DObj fields) raw (DObj [("kty", kty)])))
        = (s1, next1, Throws e) ->
        c = Rejects e).
Proof.
  assert (Hprim : KeyStore.with_kty props kty = None ->
            truthy_data props = true
            /\ (forall fields, props <> DObj fields)
            /\ (forall elems, props <> DArr elems)).
  { unfold KeyStore.with_kty.
    destruct (truthy_data props) eqn:Ht; simpl; [| discriminate].
    destruct props; try discriminate; intros _;
      (split; [reflexivity |]); split; discriminate. }
  assert (Hset : forall fields, KeyStore.with_kty props kty = Some fields ->
            assoc fields "kty" = kty).
  { assert (Hst : forall o : list (string * data),
              assoc (Obj.store o "kty" kty) "kty" = kty).
    { induction o as [|[n x] o IH]; simpl; [reflexivity |].
      destruct (String.eqb_spec n "kty") as [-> | Hn]; simpl.
      - reflexivity.
      - destruct (String.eqb_spec n "kty"); [contradiction | exact IH]. }
    unfold KeyStore.with_kty. intros fields.
    destruct (negb (truthy_data props)); [intros [= <-]; exact (Hst []) |].
    destruct props; try discriminate; intros [= <-]; apply Hst. }
  intros Hgen. apply and_group. split.
  - revert Hgen. unfold KeyStore.generate.
    destruct (Registry.get (registry s) kty) as [keytype |] eqn:Hg.
    + destruct (KeyStore.with_kty props kty) as [fields |] eqn:Hw.
      * destruct (fac_generate keytype size) as [e0 | e0 | raw | n0 e0] eqn:Hf.
        -- intros [= <- <- <-]. split; [discriminate |]. split.
           ++ intros e [= <-]. right. right. exists keytype. auto.
           ++ discriminate.
        -- intros [= <- <- <-]. split; [discriminate |]. split; discriminate.
        -- destruct (KeyStore.add s next _) as [[s1 next1] c1] eqn:Hadd.
           destruct c1; intros [= <- <- <-];
             (split; [discriminate |]); (split; [discriminate |]);
             try discriminate.
           intros key [= <-]. exists keytype, fields, raw.
           split; [reflexivity |]. split; [reflexivity |].
           split; [apply Hset; reflexivity |]. auto.
        -- intros [= <- <- <-]. split; [discriminate |]. split; discriminate.
      * intros [= <- <- <-]. split; [discriminate |]. split.
        -- intros e [= <-]. right. left. split; [reflexivity |].
           apply Hprim. reflexivity.
        -- discriminate.
    + destruct (Registry.foreign (registry s) kty) eqn:Hf;
        intros [= <- <- <-]; (split; [reflexivity |]); split; try discriminate.
      intros e [= <-]. left. auto.
  - intros keytype fields raw s1 next1 e Hg Hw Hf Hadd. revert Hgen.
    unfold KeyStore.generate. rewrite Hg, Hw, Hf, Hadd.
    intros [= <- <- <-]. reflexivity.
Qed.

(** X21: the values [asKeyStore] does not take.  A store is handed back
    as it is.  An object without a [keys] property gives a promise
    rejected with the bare text "invalid keystore".  Undefined, null, a
    boolean or a number make it throw a TypeError, as does a [keys]
    property that is not an array.  An empty array gives a new, empty
    store without parent. *)
Theorem asKeyStore_on_other_values global next :
  (forall s, KeyStore.asKeyStore global next (KeyStore.IsStore s)
             = (next, Resolves s))
  /\ (forall fields,
        Obj.lookup fields "keys" = None ->
        KeyStore.asKeyStore global next (KeyStore.IsData (DObj fields))
        = (S next, Rejects (Reason "invalid keystore")))
  /\ (forall d,
        d = DUndef \/ d = DNull \/ (exists b, d = DBool b)
        \/ (exists n, d = DNum n) ->
        KeyStore.asKeyStore global next (KeyStore.IsData d)
        = (S next, Throws TypeError))
  /\ (forall fields v,
        Obj.lookup fields "keys" = Some v ->
        (forall keys, v <> DArr keys) ->
        KeyStore.asKeyStore global next (KeyStore.IsData (DObj fields))
        = (S next, Throws TypeError))
  /\ KeyStore.asKeyStore global next (KeyStore.IsData (DArr []))
     = (S next, Resolves (fst (KeyStore.createKeyStore global next))).
Proof.
  split; [reflexivity |]. split; [| split; [| split]].
  - intros fields Hl. unfold KeyStore.asKeyStore. simpl. rewrite Hl. reflexivity.
  - intros d [-> | [-> | [[b ->] | [n ->]]]]; reflexivity.
  - intros fields v Hl Hv. unfold KeyStore.asKeyStore. simpl. rewrite Hl.
    destruct v; try reflexivity. exfalso. apply (Hv elems). reflexivity.
  - reflexivity.
Qed.

(** X22: the three forms of a key set are one to [asKeyStore]: an object
    with the array under [keys] is taken as the array, and a text as the
    value it parses to, when that is not again a text. *)
Theorem asKeyStore_forms_agree global next :
  (forall fields keys,
     Obj.lookup fields "keys" = Some (DArr keys) ->
     KeyStore.asKeyStore global next (KeyStore.IsData (DObj fields))
     = KeyStore.asKeyStore global next (KeyStore.IsData (DArr keys)))
  /\ (forall text d,
        JSON_parse text = Some d ->
        (forall t, d <> DStr t) ->
        KeyStore.asKeyStore global next (KeyStore.IsData (DStr text))
        = KeyStore.asKeyStore global next (KeyStore.IsData d)).
Proof.
  split.
  - intros fields keys Hl. unfold KeyStore.asKeyStore. simpl. rewrite Hl.
    reflexivity.
  - intros text d Hp Hd. unfold KeyStore.asKeyStore. simpl. rewrite Hp.
    destruct d; try reflexivity. exfalso. apply (Hd s). reflexivity.
Qed.

End Outcomes.

(** ** Stores made from key sets *)

Section Coercions.
Context {host : Host}.
Implicit Types (s : JWKStore) (key k : Key) (next : nat).

Lemma add_each_files : forall keys s next s' next' promises,
  KeyStore.add_each s next keys = (s', next', Return promises) ->
  length promises = length keys
  /\ s' = fold_left KeyStore.file (KeyStore.fulfilled promises) s
  /\ (KeyStore.older s next -> KeyStore.distinct s ->
      KeyStore.older s' next' /\ KeyStore.distinct s').
Proof.
  induction keys as [|d keys IH]; intros s next s' next' promises; simpl.
  - intros [= <- <- <-]. repeat split; assumption.
  - destruct (KeyStore.add s next (KeyStore.InData d)) as [[s1 next1] c] eqn:Hadd.
    pose proof (add_outcome _ _ _ _ _ _ Hadd) as Hout.
    pose proof (add_counter _ _ _ _ _ _ Hadd) as Hn.
    destruct c as [e | e | key | name e]; [discriminate | | |];
      destruct (KeyStore.add_each s1 next1 keys) as [[s2 next2] [e' | ps]] eqn:He;
      try discriminate; intros [= <- <- <-];
      destruct (IH _ _ _ _ _ He) as (Hlen & Hfold & Hinv); subst.
    + split; [simpl; congruence |]. split; [reflexivity | exact Hinv].
    + destruct Hout as [-> Href].
      split; [simpl; congruence |]. split; [reflexivity |].
      intros Ho Hd. apply Hinv.
      * apply older_file; assumption.
      * apply (distinct_file s next); assumption.
    + split; [simpl; congruence |]. split; [reflexivity | exact Hinv].
Qed.

Lemma fold_file_keeps s keys :
  registry (fold_left KeyStore.file keys s) = registry s
  /\ parent (fold_left KeyStore.file keys s) = parent s
  /\ store_ref (fold_left KeyStore.file keys s) = store_ref s
  /\ (KeyStore.well_filed s -> KeyStore.well_filed (fold_left KeyStore.file keys s))
  /\ KeyStore.stored (fold_left KeyStore.file keys s) ≡ₚ KeyStore.stored s ++ keys.
Proof.
  revert s. induction keys as [|k keys IH]; intros s; simpl.
  - rewrite app_nil_r. do 3 (split; [reflexivity |]).
    split; [intros Hwf; exact Hwf | reflexivity].
  - destruct (IH (KeyStore.file s k)) as (Hr & Hp & Hs & Hw & Hst).
    split; [exact Hr |]. split; [exact Hp |]. split; [exact Hs |]. split.
    + intros Hwf. apply Hw. apply well_filed_file. assumption.
    + rewrite Hst, stored_file, <- app_assoc. reflexivity.
Qed.

Lemma rejection_none promises :
  KeyStore.rejection promises = None ->
  length (KeyStore.fulfilled promises) = length promises.
Proof.
  unfold KeyStore.rejection.
  destruct (KeyStore.first_rejection (map snd (List.filter fst promises)));
    [discriminate |].
  induction promises as [|[b [e | e | k | name e]] ps IH]; simpl;
    try discriminate; [reflexivity |].
  intros Hr. rewrite (IH Hr). reflexivity.
Qed.

(** X23: when [asKeyStore] is fulfilled for an array, every element was
    added: the store is a new one, bound to the global registry and
    without parent, it is well filed, its keys are distinct objects, and
    it holds as many keys as the array has elements, which is also the
    number of keys [all] returns. *)
Theorem asKeyStore_holds_every_entry global next keys next' s' :
  KeyStore.asKeyStore global next (KeyStore.IsData (DArr keys))
  = (next', Resolves s') ->
  registry s' = global /\ parent s' = None /\ store_ref s' = next
  /\ KeyStore.well_filed s'
  /\ KeyStore.distinct s'
  /\ length (KeyStore.own_keys s') = length keys
  /\ forall H, length (KeyStore.all s' H VUndef VUndef) = length keys.
Proof.
  unfold KeyStore.asKeyStore. simpl.
  set (store := {| store_ref := next; registry := global; keysets := [];
                   parent := None |}).
  destruct (KeyStore.add_each store (S next) keys) as [[s2 next2] [e | ps]] eqn:He;
    [discriminate |].
  destruct (KeyStore.rejection ps) as [e |] eqn:Hr; [discriminate |].
  intros [= <- <-].
  destruct (add_each_files _ _ _ _ _ _ He) as (Hlen & Hfold & Hinv).
  destruct (fold_file_keeps store (KeyStore.fulfilled ps))
    as (Hreg & Hpar & Href & Hwf & Hst).
  rewrite <- Hfold in Hreg, Hpar, Href, Hwf, Hst.
  assert (Hwf0 : KeyStore.well_filed store).
  { split; simpl; [apply NoDup_nil_2 | intros id ks []]. }
  specialize (Hwf Hwf0).
  assert (Hown : length (KeyStore.own_keys s2) = length keys).
  { rewrite (own_keys_stored s2 (proj1 Hwf)), Hst. simpl.
    rewrite (rejection_none ps Hr). exact Hlen. }
  split; [exact Hreg |]. split; [exact Hpar |]. split; [exact Href |].
  split; [exact Hwf |]. split; [| split; [exact Hown |]].
  - apply Hinv; [intros k [] | apply NoDup_nil_2].
  - intros H. rewrite all_unfold. simpl. rewrite Hpar.
    rewrite own_matches_no_filter by apply alloc_empty. exact Hown.
Qed.

(** X24: [asKey] hands a Key back as it is and makes no store for it.  For
    any other value it ends as [asKeyStore] ends for the array of that one
    value: both throw the same error, or are rejected with the same error,
    or the store of the one holds exactly the key of the other. *)
Theorem asKey_is_asKeyStore_of_one global next :
  (forall k, KeyStore.asKey global next (KeyStore.InKey k) = (next, Resolves k))
  /\ forall d,
       match KeyStore.asKey global next (KeyStore.InData d),
             KeyStore.asKeyStore global next (KeyStore.IsData (DArr [d])) with
       | (n1, Throws e1), (n2, Throws e2) => n1 = n2 /\ e1 = e2
       | (n1, Rejects e1), (n2, Rejects e2) => n1 = n2 /\ e1 = e2
       | (n1, Resolves key), (n2, Resolves s) =>
           n1 = n2 /\ KeyStore.stored s = [key] /\ KeyStore.own_keys s = [key]
       | _, _ => False
       end.
Proof.
  split; [reflexivity |].
  intros d. unfold KeyStore.asKey, KeyStore.asKeyStore. simpl.
  set (store := {| store_ref := next; registry := global; keysets := [];
                   parent := None |}).
  destruct (KeyStore.add store (S next) (KeyStore.InData d))
    as [[s1 next1] c] eqn:Hadd.
  pose proof (add_outcome _ _ _ _ _ _ Hadd) as Hout.
  unfold KeyStore.rejection.
  destruct c as [e | e | key | name e]; simpl;
    destruct (KeyStore.refused store (KeyStore.InData d)); simpl;
    try (split; reflexivity).
  all: destruct Hout as [-> _]; split; [reflexivity |]; split; [reflexivity |].
  all: unfold KeyStore.own_keys, KeyStore.file, KeyStore.bucket,
         Obj.keys, Obj.is_index; simpl.
  all: destruct (Obj.array_index (default "" (key_kid key))); simpl;
         rewrite String.eqb_refl; reflexivity.
Qed.

End Coercions.

(** ** What passes for a store and for a key *)

Section ProbeProperties.
Import Probe.

Lemma typeof_function v : (typeof v =? "function") = true <-> v = PFun.
Proof. destruct v; simpl; split; congruence. Qed.

Lemma typeof_string v : (typeof v =? "string") = true <-> exists t, v = PStr t.
Proof.
  destruct v as [| | b | n | t | | members]; simpl; split;
    try discriminate; try (intros [t' Ht]; discriminate).
  - intros _. exists t. reflexivity.
  - reflexivity.
Qed.

Lemma typeof_number v : (typeof v =? "number") = true <-> exists n, v = PNum n.
Proof.
  destruct v as [| | b | n | t | | members]; simpl; split;
    try discriminate; try (intros [t' Ht]; discriminate).
  - intros _. exists n. reflexivity.
  - reflexivity.
Qed.

Lemma non_object_refused obj :
  (forall members, obj <> PObj members) ->
  isKeyStore obj = false /\ isKey obj = false.
Proof.
  intros Hno. unfold isKeyStore, isKey.
  destruct obj as [| | b | n | t | | members]; simpl;
    try (split; reflexivity).
  - destruct b; split; reflexivity.
  - destruct (n =? 0)%Z; split; reflexivity.
  - destruct (t =? ""); split; reflexivity.
  - exfalso. apply (Hno members). reflexivity.
Qed.

Lemma isKeyStore_members obj :
  isKeyStore obj = true <->
  exists members,
    obj = PObj members
    /\ forall m, In m store_methods -> find members m = PFun.
Proof.
  split.
  - destruct obj as [| | b | n | t | | members];
      try (intros Hv;
           match type of Hv with
           | isKeyStore ?o = true =>
               rewrite (proj1 (non_object_refused o
                                 ltac:(intros ?; discriminate))) in Hv
           end;
           discriminate Hv).
    intros Hv. exists members.
    split; [reflexivity |]. unfold isKeyStore in Hv. simpl in Hv.
    repeat match type of Hv with
           | context [negb (?t =? "function")] =>
               let E := fresh "E" in
               destruct (t =? "function") eqn:E; simpl in Hv;
               [apply typeof_function in E | discriminate Hv]
           end.
    intros m [<- | [<- | [<- | [<- | [<- | []]]]]]; assumption.
  - intros [members [-> Hall]]. unfold isKeyStore. simpl.
    rewrite !(proj2 (typeof_function _)) by (apply Hall; simpl; tauto).
    reflexivity.
Qed.

(** X25: what the two tests accept.  [isKeyStore] accepts exactly the
    objects whose members [get], [all], [generate], [add] and [remove] are
    functions.  [isKey] accepts exactly the objects whose [keystore]
    passes [isKeyStore], whose [kty] is a string, be it empty, whose
    [length] is a number, and whose eight operations are functions.
    Neither accepts undefined, null, a boolean, a number, a string or a
    function. *)
Theorem tests_accept_by_members obj :
  (isKeyStore obj = true <->
   exists members,
     obj = PObj members
     /\ forall m, In m store_methods -> find members m = PFun)
  /\ (isKey obj = true <->
      exists members,
        obj = PObj members
        /\ isKeyStore (find members "keystore") = true
        /\ (exists t, find members "kty" = PStr t)
        /\ (exists n, find members "length" = PNum n)
        /\ forall m, In m key_methods -> find members m = PFun)
  /\ ((forall members, obj <> PObj members) ->
      isKeyStore obj = false /\ isKey obj = false).
Proof.
  split; [apply isKeyStore_members |]. split.
  - split.
    + destruct obj as [| | b | n | t | | members];
        try (intros Hv;
             match type of Hv with
             | isKey ?o = true =>
                 rewrite (proj2 (non_object_refused o
                                   ltac:(intros ?; discriminate))) in Hv
             end;
             discriminate Hv).
      intros Hv. exists members.
      split; [reflexivity |]. unfold isKey in Hv. simpl in Hv.
      destruct (isKeyStore (find members "keystore")) eqn:Hks;
        [| discriminate Hv]. simpl in Hv.
      destruct (typeof (find members "kty") =? "string") eqn:Ekty;
        [| discriminate Hv]. simpl in Hv.
      destruct (typeof (find members "length") =? "number") eqn:Elen;
        [| discriminate Hv]. simpl in Hv.
      repeat match type of Hv with
             | context [negb (?t =? "function")] =>
                 let E := fresh "E" in
                 destruct (t =? "function") eqn:E; simpl in Hv;
                 [apply typeof_function in E | discriminate Hv]
             end.
      split; [reflexivity |]. split; [apply typeof_string; assumption |].
      split; [apply typeof_number; assumption |].
      intros m [<- | [<- | [<- | [<- | [<- | [<- | [<- | [<- | []]]]]]]]];
        assumption.
    + intros [members [-> (Hks & Hkty & Hlen & Hall)]]. unfold isKey. simpl.
      rewrite Hks. simpl.
      rewrite (proj2 (typeof_string _) Hkty), (proj2 (typeof_number _) Hlen).
      rewrite !(proj2 (typeof_function _)) by (apply Hall; simpl; tauto).
      reflexivity.
  - apply non_object_refused.
Qed.

End ProbeProperties.

(** ** The further properties on the sample objects *)

Section MoreSamples.
Import Fixture.

Lemma root_well_filed : KeyStore.well_filed root.
Proof.
  split.
  - apply (bool_decide_unpack _). reflexivity.
  - intros id keys [[= <- <-] | [[= <- <-] | []]];
      (split; [discriminate |]); intros k [<- | []]; reflexivity.
Qed.

Lemma blank_well_filed : KeyStore.well_filed blank.
Proof. split; [apply NoDup_nil_2 | intros id keys []]. Qed.

Lemma root_older : KeyStore.older root 20.
Proof. intros k [<- | [<- | []]]; simpl; lia. Qed.

Lemma root_distinct : KeyStore.distinct root.
Proof. apply (bool_decide_unpack _). reflexivity. Qed.

Lemma oct'_tagged : Registry.tagged oct' "oct".
Proof. split; [reflexivity | discriminate]. Qed.

(** The factory [oct] registered in an empty registry and unregistered. *)
Lemma unregister_undoes_register_witness :
  exists t1,
    Registry.register ∅ (Some oct) = Return t1
    /\ Registry.get t1 (DStr "oct") = Some oct
    /\ Registry.unregister t1 (Some oct)
       = Return (delete "oct" (∅ : gmap string Factory))
    /\ Registry.get (delete "oct" (∅ : gmap string Factory)) (DStr "oct")
       = None
    /\ Registry.foreign (delete "oct" (∅ : gmap string Factory)) (DStr "oct")
       = false
    /\ ((∅ : gmap string Factory) !! "oct" = None ->
        delete "oct" (∅ : gmap string Factory) = ∅).
Proof.
  apply (unregister_undoes_register ∅ oct "oct").
  - split; [reflexivity | discriminate].
  - reflexivity.
Defined.

(** Names that [types] inherits: [get] returns a member for them, a
    factory registered under "toString" is unregistered and the inherited
    method is back, and a factory registered under "__proto__" stays and
    lends its three members. *)
Example registry_of_inherited_names :
  Registry.foreign (∅ : gmap string Factory) (DStr "constructor") = true
  /\ Registry.get (∅ : gmap string Factory) (DStr "constructor") = None
  /\ Registry.foreign (∅ : gmap string Factory) (DStr "EC") = false
  /\ Registry.register ∅ (Some proto_factory)
     = Return {[ "__proto__" := proto_factory ]}
  /\ Registry.unregister {[ "__proto__" := proto_factory ]} (Some proto_factory)
     = Return {[ "__proto__" := proto_factory ]}
  /\ Registry.foreign {[ "__proto__" := proto_factory ]} (DStr "prepare") = true
  /\ Registry.foreign (∅ : gmap string Factory) (DStr "prepare") = false.
Proof. repeat (split; [reflexivity |]). reflexivity. Qed.

(** A second factory of symmetric keys registered beside the RSA factory. *)
Lemma registry_other_tags_kept_witness :
  Registry.get (<["oct" := oct']> global) (DStr "RSA")
  = Registry.get global (DStr "RSA")
  /\ Registry.foreign (<["oct" := oct']> global) (DStr "RSA")
     = Registry.foreign global (DStr "RSA").
Proof.
  apply (registry_other_tags_kept global oct' "oct" _ "RSA" oct'_tagged).
  - discriminate.
  - left. reflexivity.
  - discriminate.
Defined.

(** [key_a] removed from [root]. *)
Lemma keys_stay_distinct_witness :
  KeyStore.older (KeyStore.remove root (Some key_a)) 20
  /\ KeyStore.distinct (KeyStore.remove root (Some key_a)).
Proof.
  apply (proj2 (proj2 (keys_stay_distinct root 20 root_older root_distinct))
           (Some key_a)).
Defined.

(** [key_a] removed from [shelf], whose bucket "a" holds it at the second
    and at the fourth place: the second entry goes. *)
Lemma remove_takes_first_identical_witness :
  KeyStore.bucket (KeyStore.remove shelf (Some key_a)) "a"
  = [copy_a; twin_a; key_a]
  /\ KeyStore.bucket (KeyStore.remove shelf (Some key_a)) "r" = [key_rsa]
  /\ In "a" (Obj.keys (keysets (KeyStore.remove shelf (Some key_a)))).
Proof.
  assert (Hnd : NoDup (map fst (keysets shelf)))
    by (apply (bool_decide_unpack _); reflexivity).
  destruct (remove_takes_first_identical shelf key_a "a"
              [copy_a; key_a; twin_a; key_a] Hnd eq_refl eq_refl
              (ex_intro _ key_a (conj (or_intror (or_introl eq_refl)) eq_refl)))
    as (pos & x & Hx & Hsame & Hfirst & _ & Hbucket & Hnames).
  assert (Hpos : pos = 1%nat).
  { destruct pos as [|[|pos]]; [| reflexivity |].
    - injection Hx as <-. discriminate Hsame.
    - assert (Hone : same_key key_a key_a = false)
        by (apply (Hfirst 1%nat key_a); [lia | reflexivity]).
      discriminate Hone. }
  subst pos.
  split; [rewrite (Hbucket "a"); reflexivity |].
  split; [rewrite (Hbucket "r"); reflexivity |].
  apply (Hnames "a"). split; [left; reflexivity |].
  intros _. discriminate.
Defined.

(** [key_a] added to the empty store [blank], and the copy removed. *)
Lemma remove_undoes_add_witness :
  KeyStore.remove (KeyStore.file blank copy_a) (Some copy_a) = blank.
Proof.
  apply (remove_undoes_add blank 20 (KeyStore.InKey key_a) _ 21 copy_a
           blank_well_filed).
  - intros k [].
  - reflexivity.
  - discriminate.
Defined.

(** [branch] searched with the filter [{note: "x"}]. *)
Lemma all_without_filter_lists_the_chain_witness :
  KeyStore.all branch filters (VRef 1) VUndef = [key_anon; key_a; key_rsa]
  /\ get_prop filters (VRef 1) "note" = VStr "x".
Proof.
  split; [| reflexivity].
  rewrite (all_without_filter_lists_the_chain branch filters (VRef 1) VUndef).
  - reflexivity.
  - right. intros name [<- | [<- | [<- | [<- | []]]]]; reflexivity.
Defined.

(** [root] searched with the filter [{kid: "a"}]: the key "a" is found,
    the key "r" is not. *)
Lemma all_selects_by_kid_witness :
  In key_a (KeyStore.all root filters (VRef 0) (VBool true))
  /\ ~ In key_rsa (KeyStore.all root filters (VRef 0) (VBool true)).
Proof.
  split.
  - apply (all_selects_by_kid root filters (VRef 0) key_a root_well_filed
             eq_refl).
    split; [left; reflexivity |]. split; [reflexivity |].
    intros _. reflexivity.
  - intros Hin.
    apply (all_selects_by_kid root filters (VRef 0) key_rsa root_well_filed
             eq_refl) in Hin as (_ & _ & Hkid).
    specialize (Hkid eq_refl).
    assert (Ha : get_prop filters (VRef 0) "kid" = VStr "a") by reflexivity.
    rewrite Ha in Hkid. discriminate Hkid.
Defined.

(** [pair] holds two keys under "a" and its parent [root] a third: [get]
    returns the first of the two.  An identifier without a bucket gives
    null in [root], which has no parent, and in [child] when the search is
    local. *)
Lemma get_by_id_returns_first_of_bucket_witness :
  snd (KeyStore.get pair ∅ (VStr "a") VUndef VUndef) = Return (Some copy_a)
  /\ snd (KeyStore.get root ∅ (VStr "b") VUndef VUndef) = Return None
  /\ snd (KeyStore.get child ∅ (VStr "b") VUndef (VBool true)) = Return None.
Proof.
  assert (Hne : forall id, id = "a" \/ id = "b" -> id <> "")
    by (intros id [-> | ->]; discriminate).
  assert (Hpair : NoDup (map fst (keysets pair)))
    by (apply (bool_decide_unpack _); reflexivity).
  split; [| split].
  - apply (proj1 (get_by_id_returns_first_of_bucket pair ∅ "a" VUndef
                    Hpair (Hne "a" (or_introl eq_refl)))
             copy_a [twin_a]).
    reflexivity.
  - apply (proj2 (get_by_id_returns_first_of_bucket root ∅ "b" VUndef
                    (proj1 root_well_filed) (Hne "b" (or_intror eq_refl)))).
    + reflexivity.
    + left. reflexivity.
  - apply (proj2 (get_by_id_returns_first_of_bucket child ∅ "b" (VBool true)
                    (NoDup_nil_2 : NoDup (map fst (keysets child)))
                    (Hne "b" (or_intror eq_refl)))).
    + reflexivity.
    + right. reflexivity.
Defined.

Lemma get_finds_added_key_witness :
  snd (KeyStore.get (KeyStore.file blank copy_a) ∅ (VStr "a") VUndef VUndef)
  = Return (Some copy_a).
Proof.
  apply (get_finds_added_key blank 20 (KeyStore.InKey key_a) _ 21 copy_a "a" ∅
           VUndef (proj1 blank_well_filed)).
  - reflexivity.
  - reflexivity.
  - discriminate.
Defined.

Lemma added_key_is_listed_witness :
  KeyStore.all (KeyStore.file blank copy_a) ∅ VUndef (VBool true)
  ≡ₚ KeyStore.all blank ∅ VUndef (VBool true) ++ [copy_a].
Proof.
  apply (proj1 (added_key_is_listed blank 20 (KeyStore.InKey key_a) _ 21 copy_a
                  (proj1 blank_well_filed) eq_refl) ∅).
Defined.

(** [child.get("a", props)] with the filter at address 1: the object at
    address 0 is not touched. *)
Lemma get_touches_only_the_filter_witness :
  fst (KeyStore.get child objects (VStr "a") (VRef 1) VUndef) !! 0
  = objects !! 0.
Proof.
  apply (get_touches_only_the_filter child objects (VStr "a") (VRef 1) VUndef 0).
  - exists {[ "alg" := VStr "dir" ]}. reflexivity.
  - discriminate.
  - discriminate.
Defined.

(** [root.get("a", 5)]: the filter is a number. *)
Lemma get_without_parent_witness :
  snd (KeyStore.get root ∅ (VStr "a") (VNum 5) VUndef) = Throw TypeError
  /\ match snd (KeyStore.get root ∅ (VStr "a") (VNum 5) VUndef) with
     | Throw e =>
         e = TypeError /\ truthy (VStr "a") = true /\ truthy (VNum 5) = true
         /\ typeof (VStr "a") <> "boolean" /\ typeof (VStr "a") <> "object"
         /\ typeof (VNum 5) <> "object"
     | Return None => True
     | Return (Some k) => In k (KeyStore.own_keys root)
     end.
Proof.
  split; [reflexivity |].
  apply (get_without_parent root ∅ (VStr "a") (VNum 5) VUndef). reflexivity.
Defined.

(** [add] of data whose type tag is "toString", and of data whose type
    tag is unknown. *)
Lemma add_throws_only_early_witness :
  KeyStore.add blank 20 (KeyStore.InData (DObj [("kty", DStr "toString")]))
  = (blank, 20%nat, Throws TypeError)
  /\ Registry.foreign (registry blank) (DStr "toString") = true
  /\ KeyStore.add blank 20 (KeyStore.InData (DObj [("kty", DStr "EC")]))
     = (blank, 20%nat, Rejects (Error "unsupported key type")).
Proof.
  assert (Hadd : KeyStore.add blank 20
                   (KeyStore.InData (DObj [("kty", DStr "toString")]))
                 = (blank, 20%nat, Throws TypeError)) by reflexivity.
  assert (Hnone : Registry.get (registry blank) (DStr "toString") = None)
    by reflexivity.
  split; [exact Hadd |]. split.
  - destruct (proj1 (add_throws_only_early blank 20 _) _ _ _ Hadd)
      as [[He _]
         | [[_ [d [Hn Hk]]]
           | [[_ (d & kty & Hn & Hk & Hg & Hf)]
             | (d & kty & keytype & Hn & Hk & Hg & Hp)]]].
    + discriminate He.
    + injection Hn as <-. discriminate Hk.
    + injection Hn as <-. injection Hk as <-. exact Hf.
    + injection Hn as <-. injection Hk as <-. congruence.
  - apply (proj1 (proj2 (add_throws_only_early blank 20
                           (KeyStore.InData (DObj [("kty", DStr "EC")])))
                    (DObj [("kty", DStr "EC")]) (DStr "EC") eq_refl eq_refl));
      reflexivity.
Defined.

(** A symmetric key generated in [blank]. *)
Lemma generate_ends_as_factory_and_add_witness :
  exists keytype fields raw,
    Registry.get (registry blank) (DStr "oct") = Some keytype
    /\ KeyStore.with_kty DUndef (DStr "oct") = Some fields
    /\ assoc fields "kty" = DStr "oct"
    /\ fac_generate keytype DUndef = Resolves raw
    /\ KeyStore.add blank 20
         (KeyStore.InData (merge (DObj fields) raw (DObj [("kty", DStr "oct")])))
       = (KeyStore.file blank fresh_anon, 21%nat, Resolves fresh_anon).
Proof.
  apply (proj1 (proj2 (proj2 (generate_ends_as_factory_and_add blank 20
                                (DStr "oct") DUndef DUndef
                                (KeyStore.file blank fresh_anon) 21
                                (Resolves fresh_anon) eq_refl)))
           fresh_anon eq_refl).
Defined.

(** The array of [anonymous] and [named]. *)
Lemma asKeyStore_holds_every_entry_witness :
  KeyStore.asKeyStore global 0 (KeyStore.IsData (DArr [anonymous; named]))
  = (3%nat, Resolves made)
  /\ length (KeyStore.own_keys made) = 2%nat
  /\ KeyStore.distinct made.
Proof.
  assert (Hmade : KeyStore.asKeyStore global 0
                    (KeyStore.IsData (DArr [anonymous; named]))
                  = (3%nat, Resolves made)) by reflexivity.
  destruct (asKeyStore_holds_every_entry global 0 [anonymous; named] 3 made
              Hmade) as (_ & _ & _ & _ & Hd & Hlen & _).
  split; [exact Hmade |]. split; [exact Hlen | exact Hd].
Defined.

(** [named] added twice to [blank]. *)
Lemma same_id_keys_are_both_kept_witness :
  KeyStore.bucket (KeyStore.file (KeyStore.file blank copy_a) twin_a) "a"
  = [copy_a; twin_a]
  /\ same_key copy_a twin_a = false.
Proof.
  destruct (same_id_keys_are_both_kept blank 20 (KeyStore.InData named)
              (KeyStore.file blank copy_a) 21 copy_a (KeyStore.InData named)
              (KeyStore.file (KeyStore.file blank copy_a) twin_a) 22 twin_a "a"
              eq_refl eq_refl eq_refl eq_refl) as (Hb & Hd & _).
  split; [exact Hb | exact Hd].
Defined.

(** [oct'] unregistered where [oct] holds the tag. *)
Lemma unregister_needs_same_factory_witness :
  Registry.unregister global (Some oct') = Return global
  /\ Registry.get global (DStr "oct") = Some oct.
Proof.
  apply (proj2 (proj2 (unregister_needs_same_factory global (Some oct'))
                  oct' "oct" eq_refl oct'_tagged) oct eq_refl).
  simpl. lia.
Defined.

Lemma registry_stays_sound_witness :
  Registry.sound (<["oct" := oct]> (∅ : gmap string Factory)).
Proof.
  apply (proj1 (proj2 (registry_stays_sound ∅)
                  (proj1 (registry_stays_sound ∅))) (Some oct)).
  reflexivity.
Defined.

Lemma stores_stay_well_filed_witness :
  KeyStore.well_filed (KeyStore.file blank copy_a)
  /\ KeyStore.well_filed (KeyStore.remove root (Some key_a))
  /\ KeyStore.stray blank "constructor" = true.
Proof.
  pose proof (proj1 (proj2 (stores_stay_well_filed blank 20) blank_well_filed))
    as Hadd.
  split; [| split].
  - pose proof (Hadd (KeyStore.InKey key_a)) as Ha.
    change (KeyStore.add blank 20 (KeyStore.InKey key_a))
      with (KeyStore.file blank copy_a, 21%nat, Resolves copy_a) in Ha.
    exact Ha.
  - apply (proj2 (proj2 (proj2 (stores_stay_well_filed root 20)
                           root_well_filed)) (Some key_a)).
  - pose proof (Hadd (KeyStore.InData odd)) as Ha.
    change (KeyStore.add blank 20 (KeyStore.InData odd))
      with (blank, 20%nat, @Spoils Key "constructor" TypeError) in Ha.
    exact Ha.
Defined.

(** [root], whose two buckets were created in the order "a", "r", seen
    under another parent. *)
Lemma toJSON_own_keys_only_witness :
  KeyStore.toJSON root VUndef
  = DObj [("keys",
           DArr [DObj [("kty", DStr "oct"); ("kid", DStr "a")];
                 DObj [("kty", DStr "RSA"); ("kid", DStr "r");
                       ("n", DStr "AQAB"); ("alg", DStr "RS256")]])]
  /\ KeyStore.toJSON (KeyStore.with_parent root (Some branch)) VUndef
     = KeyStore.toJSON root VUndef.
Proof.
  destruct (toJSON_own_keys_only root VUndef (proj1 root_well_filed))
    as (forms & Hj & _ & _ & Horder & Hpar).
  assert (Hno : forall name, In name (map fst (keysets root)) ->
                             Obj.is_index name = false)
    by (intros name [<- | [<- | []]]; reflexivity).
  pose proof (Horder Hno) as Hforms. subst forms.
  split.
  - rewrite Hj. reflexivity.
  - rewrite (Hpar (Some branch)), Hj. reflexivity.
Defined.

(** A key that [root] does not hold. *)
Lemma remove_unknown_key_changes_nothing_witness :
  KeyStore.remove root (Some copy_a) = root.
Proof.
  apply (proj2 (remove_unknown_key_changes_nothing root) copy_a).
  intros x [<- | []]. reflexivity.
Defined.

Lemma all_selects_in_order_witness :
  KeyStore.all branch objects (VRef 1) (VBool true)
  `sublist_of` KeyStore.own_keys branch.
Proof.
  apply (proj1 (proj2 (all_selects_in_order branch objects (VRef 1)
                         (VBool true)))).
  reflexivity.
Defined.

(** An object that has no [keys]. *)
Lemma asKeyStore_on_other_values_witness :
  KeyStore.asKeyStore global 0 (KeyStore.IsData named)
  = (1%nat, Rejects (Reason "invalid keystore")).
Proof.
  apply (proj1 (proj2 (asKeyStore_on_other_values global 0))). reflexivity.
Defined.

Lemma asKeyStore_forms_agree_witness :
  KeyStore.asKeyStore global 0
    (KeyStore.IsData (DObj [("keys", DArr [anonymous; named])]))
  = KeyStore.asKeyStore global 0 (KeyStore.IsData (DArr [anonymous; named])).
Proof.
  apply (proj1 (asKeyStore_forms_agree global 0)). reflexivity.
Defined.

Lemma tests_accept_by_members_witness :
  Probe.isKey seen_key = true /\ Probe.isKey seen_store = false.
Proof.
  split.
  - apply (proj2 (proj1 (proj2 (tests_accept_by_members seen_key)))).
    eexists. split; [reflexivity |].
    split; [reflexivity |]. split; [exists "oct"; reflexivity |].
    split; [exists 256%Z; reflexivity |].
    intros m Hm. simpl in Hm.
    repeat (destruct Hm as [<- | Hm]; [reflexivity |]). destruct Hm.
  - reflexivity.
Defined.

End MoreSamples.
